(** * BI Spec Builder: the conversation engine, the change interpreter,
      the project lifecycle and the task list

    A shallow embedding of the TypeScript components [RequirementsChat],
    [DesignRequirementsChat], [ProjectEditor] and [TasksManager], with the
    Supabase tables they read and write kept as lists of rows.

    Conventions of the model:
    - a JavaScript string is a sequence of UTF-16 code units; the model
      keeps the strings whose code units are below 256 (Basic Latin and
      Latin-1), as a [string] of 8-bit characters. On these [toLowerCase],
      [trim], [\s] and [.] are the ECMAScript ones: the upper-case letters
      are A to Z, U+00C0 to U+00D6 and U+00D8 to U+00DE; the white space is
      TAB, LF, VT, FF, CR, SP and the no-break space U+00A0; the line
      terminators are LF and CR. The case mapping of the code units from
      256 on is a table of its own and is not modelled;
    - a JavaScript object used as a dictionary ([Record<string, any>]) is a
      [gmap string jsval]; a key that is absent reads as [undefined];
    - a [uuid] column is a [nat]; it is never the empty string, so the
      JavaScript test [x || y] on a nullable uuid is a test for [null];
    - the text of the assistant's replies carries no state and is left out,
      and so are the time stamps of the rows. *)

From Stdlib Require Import ZArith Ascii String.
From stdpp Require Import gmap strings list sorting pretty.

Local Open Scope Z_scope.

(** ** JavaScript primitives *)

Module JS.

(** The lower-case form of a code unit below 256: A to Z, U+00C0 to U+00D6
    and U+00D8 to U+00DE stand 32 below their lower-case forms (U+00D7 is
    the multiplication sign); nothing else changes. *)
Definition lower_char (c : ascii) : ascii :=
  let n := nat_of_ascii c in
  if ((65 <=? n)%nat && (n <=? 90)%nat)%bool
     || ((192 <=? n)%nat && (n <=? 222)%nat && negb (n =? 215)%nat)%bool
  then ascii_of_nat (n + 32) else c.

(** White space and line terminators, which [trim] strips and [\s] matches:
    TAB, LF, VT, FF, CR, SP and the no-break space U+00A0. *)
Definition is_white_space (c : ascii) : bool :=
  match c with
  | "009" | "010" | "011" | "012" | "013" | " " | "160" => true
  | _ => false
  end%char.

(** [s.toLowerCase()] *)
Fixpoint toLowerCase (s : string) : string :=
  match s with
  | EmptyString => EmptyString
  | String c s' => String (lower_char c) (toLowerCase s')
  end.

(** [s.startsWith(p)] *)
Fixpoint startsWith (s p : string) : bool :=
  match p, s with
  | EmptyString, _ => true
  | String _ _, EmptyString => false
  | String a p', String b s' => if decide (a = b) then startsWith s' p' else false
  end.

(** [s.includes(p)] *)
Fixpoint includes (s p : string) : bool :=
  startsWith s p ||
  match s with
  | EmptyString => false
  | String _ s' => includes s' p
  end.

(** [s.split(sep)] for a one-character separator: never the empty list. *)
Fixpoint split (sep : ascii) (s : string) : list string :=
  match s with
  | EmptyString => [EmptyString]
  | String c s' =>
      if decide (c = sep) then EmptyString :: split sep s'
      else match split sep s' with
           | t :: ts => String c t :: ts
           | [] => [String c EmptyString]
           end
  end.

(** [l.join(sep)] *)
Fixpoint join (sep : string) (l : list string) : string :=
  match l with
  | [] => EmptyString
  | [t] => t
  | t :: ts => t +:+ sep +:+ join sep ts
  end.

Fixpoint trimStart (s : string) : string :=
  match s with
  | EmptyString => EmptyString
  | String c s' => if is_white_space c then trimStart s' else s
  end.

Fixpoint trimEnd (s : string) : string :=
  match s with
  | EmptyString => EmptyString
  | String c s' =>
      match trimEnd s' with
      | EmptyString => if is_white_space c then EmptyString else String c EmptyString
      | t => String c t
      end
  end.

(** [s.trim()] *)
Definition trim (s : string) : string := trimEnd (trimStart s).

(** A string is truthy when it is not empty. *)
Definition nonempty (s : string) : bool :=
  match s with EmptyString => false | String _ _ => true end.

(** The values the chats keep in their [data] dictionary. *)
Inductive jsval :=
| VStr (s : string)
| VBool (b : bool)
| VList (l : list string).

(** JavaScript truthiness of [data.key]: [undefined], the empty string and
    [false] are falsy; every array, the empty one too, is truthy. *)
Definition truthy (v : option jsval) : bool :=
  match v with
  | None => false
  | Some (VStr s) => nonempty s
  | Some (VBool b) => b
  | Some (VList _) => true
  end.

(** [data.key === undefined] *)
Definition is_undefined (v : option jsval) : bool :=
  match v with None => true | Some _ => false end.

(** [if (c) data.k = v] *)
Definition set_if (c : bool) (k : string) (v : jsval)
    (d : gmap string jsval) : gmap string jsval :=
  if c then <[k := v]> d else d.

(** [l.map(f)] with the index passed to [f], as in [names.map((x, i) => ...)]. *)
Fixpoint mapi_from {A B} (f : A → Z → B) (i : Z) (l : list A) : list B :=
  match l with
  | [] => []
  | x :: l' => f x i :: mapi_from f (i + 1) l'
  end.
Definition mapi {A B} (f : A → Z → B) (l : list A) : list B := mapi_from f 0 l.

(** *** Regular expressions

    The fragment of JavaScript regular expressions that [extractValue]
    builds: literal characters, the classes [\s] and [.], greedy [*] and [+]
    on a class, an optional character, alternation, one capturing group and
    the anchor [^]. All of them are used with the flag [i], so a literal
    character matches whatever its case: two code units below 256 have the
    same canonical form exactly when they have the same lower-case form. The matcher backtracks in the order
    of the ECMAScript semantics: a greedy repetition gives characters back
    one at a time, the left branch of an alternation is tried first. *)

Inductive regex :=
| Chr (c : ascii)
| Cls (p : ascii → bool)
| Eps
| Seq (r1 r2 : regex)
| Alt (r1 r2 : regex)
| Star (p : ascii → bool)
| Cap (r : regex)
| Bol.

(** [\s] *)
Definition space : ascii → bool := is_white_space.

(** [.]: any character but a line terminator *)
Definition dot (c : ascii) : bool :=
  match c with
  | "010"%char | "013"%char => false
  | _ => true
  end.

Definition Plus (p : ascii → bool) : regex := Seq (Cls p) (Star p).
Definition Opt (c : ascii) : regex := Alt (Chr c) Eps.

Fixpoint Lit (s : string) : regex :=
  match s with
  | EmptyString => Eps
  | String c s' => Seq (Chr c) (Lit s')
  end.

Fixpoint star_k {R} (p : ascii → bool) (i : nat) (s : string)
    (k : nat → string → option R) : option R :=
  match s with
  | String c s' =>
      if p c then
        match star_k p (S i) s' k with
        | Some r => Some r
        | None => k i s
        end
      else k i s
  | EmptyString => k i s
  end.

(** [exec r i s g k]: match [r] at index [i], where [s] is what is left of
    the subject and [g] the capture so far; [k] is the rest of the match. *)
Fixpoint exec {R} (r : regex) (i : nat) (s : string) (g : option string)
    (k : nat → string → option string → option R) : option R :=
  match r with
  | Chr c =>
      match s with
      | String x s' =>
          if decide (lower_char x = lower_char c) then k (S i) s' g else None
      | EmptyString => None
      end
  | Cls p =>
      match s with
      | String x s' => if p x then k (S i) s' g else None
      | EmptyString => None
      end
  | Eps => k i s g
  | Seq r1 r2 => exec r1 i s g (λ i' s' g', exec r2 i' s' g' k)
  | Alt r1 r2 =>
      match exec r1 i s g k with
      | Some x => Some x
      | None => exec r2 i s g k
      end
  | Star p => star_k p i s (λ i' s', k i' s' g)
  | Cap r' => exec r' i s g (λ i' s' _, k i' s' (Some (substring 0 (i' - i) s)))
  | Bol => if decide (i = 0%nat) then k i s g else None
  end.

(** The leftmost match: its start, its end and its capture. *)
Fixpoint search (r : regex) (i : nat) (s : string) : option (nat * nat * option string) :=
  match exec r i s None (λ j _ g, Some (i, j, g)) with
  | Some m => Some m
  | None =>
      match s with
      | String _ s' => search r (S i) s'
      | EmptyString => None
      end
  end.

(** [s.match(r)], reduced to what the callers read: [None] for [null],
    else the capture [m[1]] (the empty string when the group took no part). *)
Definition match1 (r : regex) (s : string) : option string :=
  match search r 0 s with
  | Some (_, _, g) => Some (default EmptyString g)
  | None => None
  end.

(** [s.replace(r, '')]: the first match is cut out. *)
Definition replace_first (r : regex) (s : string) : string :=
  match search r 0 s with
  | Some (a, b, _) => substring 0 a s +:+ substring b (String.length s - b) s
  | None => s
  end.

End JS.

(** ** Steps of the two flows *)

Inductive StepId :=
| SName | SDescription | SAudience | SDataSources | SMetrics | STabs | SFilters
| SAppendix | SMetricLogic | SAdditional | SChangeRequest | SComplete
| SDashboardSize | SColorPalette | SFonts | SLogo.

Global Instance StepId_eq_dec : EqDecision StepId.
Proof. solve_decision. Defined.

Record ConversationState := {
  step : StepId;
  data : gmap string JS.jsval;
}.

(** ** Rows of the Supabase tables

    Every request to the store is taken to reach it; the one that the
    store refuses is a [maybeSingle] read that selects several rows. A table
    is the list of its rows; [delete] keeps the rows that do not match,
    [insert] appends, [update] rewrites the matching rows in place. The
    primary keys of
    [dashboard_tabs] and [filters] are never read by the chats and are left
    out of their rows. *)

Definition uuid := nat.
Bind Scope nat_scope with uuid.

Record ProjectRow := {
  p_id : uuid;
  p_name : string;
  p_description : string;
  p_audience : string;
  p_status : string;
  p_created_by : uuid;
  p_updated_by : option uuid;
  p_parent_project_id : option uuid;
  p_version_number : Z;
  p_has_appendix_tab : option bool;
  p_has_metric_logic_tab : option bool;
}.

Record ChangeHistoryRow := {
  ch_project_id : uuid;
  ch_changed_by : uuid;
  ch_change_type : string;
  ch_change_description : string;
}.

Record FunctionalRequirementsRow := {
  fr_project_id : uuid;
  fr_data_sources : option (list string);
  fr_metrics : option (list string);
}.

Record DesignRequirementsRow := {
  dr_project_id : uuid;
  dr_dashboard_size : option string;
  dr_color_palette : option (list string);
  dr_fonts : option (list string);
  dr_logo_url : option string;
  dr_logo_location : option string;
  dr_additional_requirements : option string;
}.

Record TabRow := {
  tab_project_id : uuid;
  tab_name : string;
  tab_order_index : Z;
}.

Record FilterRow := {
  f_project_id : option uuid;
  f_tab_id : option uuid;
  f_name : string;
  f_data_source : string;
  f_multi_select : bool;
}.

Record AdditionalRequirementRow := {
  ar_project_id : uuid;
  ar_category : string;
  ar_content : string;
}.

Record TaskRow := {
  t_id : uuid;
  t_project_id : uuid;
  t_description : string;
  t_order_index : Z;
  t_completed : bool;
}.

Global Instance TabRow_eq_dec : EqDecision TabRow.
Proof. solve_decision. Defined.
Global Instance FilterRow_eq_dec : EqDecision FilterRow.
Proof. solve_decision. Defined.
Global Instance TaskRow_eq_dec : EqDecision TaskRow.
Proof. solve_decision. Defined.
Global Instance ProjectRow_eq_dec : EqDecision ProjectRow.
Proof. solve_decision. Defined.

(** [.maybeSingle()] on the rows a query selects: the row when there is
    exactly one; [data] is [null] when there is none, and also when there
    are several (the request then fails, and the callers read [data] only). *)
Definition maybeSingle {A} (rows : list A) : option A :=
  match rows with
  | [r] => Some r
  | _ => None
  end.

(** A nullable text column read in a condition: [null] and [''] are falsy. *)
Definition text_filled (v : option string) : bool :=
  match v with Some s => JS.nonempty s | None => false end.

(** [col?.length > 0] on a nullable array column *)
Definition array_filled (v : option (list string)) : bool :=
  match v with Some (_ :: _) => true | _ => false end.

(** The write-through calls a chat makes while it answers; they are carried
    out by [saveTabs], [saveFilters] and the like, after the reply. *)
Inductive Effect :=
| OnProjectUpdate (field : string) (v : JS.jsval)
| SaveFunctionalRequirements (updates : list (string * JS.jsval))
| SaveTabs (tabsInput : string)
| SaveFilters (filterNames : list string)
| SaveAdditionalRequirement (content : string)
| OnRequirementsGenerated (requirements : gmap string JS.jsval).

Record Response := {
  newState : ConversationState;
  effects : list Effect;
}.

(** ** RequirementsChat: the functional-requirements flow *)

Module RequirementsChat.
Import JS.

Definition by_order_index (a b : TabRow) : Prop :=
  tab_order_index a ≤ tab_order_index b.

Global Instance by_order_index_dec : RelDecision by_order_index.
Proof. intros a b. unfold by_order_index. apply _. Defined.

Definition loadExistingRequirements (projectId : uuid)
    (projects : list ProjectRow)
    (functional_requirements : list FunctionalRequirementsRow)
    (dashboard_tabs : list TabRow)
    (filters : list FilterRow)
    (additional_requirements : list AdditionalRequirementRow)
    : gmap string jsval :=
  let data : gmap string jsval := ∅ in
  let data :=
    match maybeSingle (filter (λ r, p_id r = projectId) projects) with
    | Some project =>
        let data := set_if (nonempty (p_name project)) "name" (VStr (p_name project)) data in
        let data := set_if (nonempty (p_description project)) "description"
                      (VStr (p_description project)) data in
        let data := set_if (nonempty (p_audience project)) "audience"
                      (VStr (p_audience project)) data in
        let data := match p_has_appendix_tab project with
                    | Some b => <["has_appendix" := VBool b]> data
                    | None => data
                    end in
        match p_has_metric_logic_tab project with
        | Some b => <["has_metric_logic" := VBool b]> data
        | None => data
        end
    | None => data
    end in
  let data :=
    match maybeSingle (filter (λ r, fr_project_id r = projectId) functional_requirements) with
    | Some funcReqs =>
        let data := set_if (array_filled (fr_data_sources funcReqs)) "data_sources"
                      (VList (default [] (fr_data_sources funcReqs))) data in
        set_if (array_filled (fr_metrics funcReqs)) "metrics"
          (VList (default [] (fr_metrics funcReqs))) data
    | None => data
    end in
  let tabs := merge_sort by_order_index
                (filter (λ r, tab_project_id r = projectId) dashboard_tabs) in
  let data := set_if (bool_decide (tabs ≠ [])) "tabs"
                (VStr (join ", " (map tab_name tabs))) data in
  (* the query on [filters] selects on [tab_id] alone *)
  let filters := filter (λ r, f_tab_id r = None) filters in
  let data := set_if (bool_decide (filters ≠ [])) "filters"
                (VList (map f_name filters)) data in
  let additionalReqs :=
    filter (λ r, ar_project_id r = projectId ∧ ar_category r = "functional")
      additional_requirements in
  set_if (bool_decide (additionalReqs ≠ [])) "additional_requirements"
    (VList (map ar_content additionalReqs)) data.

Definition determineNextStep (data : gmap string jsval) : StepId :=
  if negb (truthy (data !! "name")) then SName
  else if negb (truthy (data !! "description")) then SDescription
  else if negb (truthy (data !! "audience")) then SAudience
  else if negb (truthy (data !! "data_sources")) then SDataSources
  else if negb (truthy (data !! "metrics")) then SMetrics
  else if negb (truthy (data !! "tabs")) then STabs
  else if negb (truthy (data !! "filters")) then SFilters
  else if is_undefined (data !! "has_appendix") then SAppendix
  else if is_undefined (data !! "has_metric_logic") then SMetricLogic
  else SAdditional.

Definition initializeChat (projectId : uuid)
    (projects : list ProjectRow)
    (functional_requirements : list FunctionalRequirementsRow)
    (dashboard_tabs : list TabRow)
    (filters : list FilterRow)
    (additional_requirements : list AdditionalRequirementRow)
    : ConversationState :=
  let existingData :=
    loadExistingRequirements projectId projects functional_requirements
      dashboard_tabs filters additional_requirements in
  {| step := determineNextStep existingData; data := existingData |}.

(** *** handleChangeRequest *)

(** [new RegExp(`${field}\\s+to\\s+(.+)`, 'i')] *)
Definition to_pattern (field : regex) : regex :=
  Seq field (Seq (Plus space) (Seq (Lit "to") (Seq (Plus space) (Cap (Plus dot))))).

(** [/(?:change|update)\s+(.+)/i] *)
Definition change_pattern : regex :=
  Seq (Alt (Lit "change") (Lit "update")) (Seq (Plus space) (Cap (Plus dot))).

(** [new RegExp(`^${field}\\s*`, 'i')] *)
Definition leading_field (field : regex) : regex :=
  Seq Bol (Seq field (Star space)).

(** [new RegExp(`.*${field}\\s*`, 'i')] *)
Definition upto_field (field : regex) : regex :=
  Seq (Star dot) (Seq field (Star space)).

Definition extractValue (userInput : string) (field : regex) : string :=
  match match1 (to_pattern field) userInput with
  | Some v => v
  | None =>
      match match1 change_pattern userInput with
      | Some v => trim (replace_first (leading_field field) v)
      | None => trim (replace_first (upto_field field) userInput)
      end
  end.

(** The patterns that [handleChangeRequest] passes as [field]. *)
Definition re_name : regex := Lit "name".
Definition re_description : regex := Lit "description".
Definition re_audience : regex := Lit "audience".
Definition re_data_sources : regex :=
  Seq (Lit "data") (Seq (Star space) (Seq (Lit "source") (Opt "s"))).
Definition re_metrics : regex := Seq (Lit "metric") (Opt "s").
Definition re_tabs : regex := Seq (Lit "tab") (Opt "s").
Definition re_filters : regex := Seq (Lit "filter") (Opt "s").

(** [value.split(',').map(s => s.trim())] *)
Definition split_trim (value : string) : list string :=
  map trim (split "," value).

Definition changed (data : gmap string jsval) (es : list Effect) : Response :=
  {| newState := {| step := SAdditional; data := data |}; effects := es |}.

(** Each block [if (input.includes(k)) { const v = extractValue(..); if (v)
    { ...; return } }] falls through to the next one when either test fails,
    so the two tests are taken together. *)
Definition handleChangeRequest (userInput : string) (data : gmap string jsval) : Response :=
  let input := toLowerCase userInput in
  let newName := extractValue userInput re_name in
  if includes input "name" && nonempty newName then
    changed (<["name" := VStr newName]> data)
      [OnProjectUpdate "name" (VStr newName); SaveFunctionalRequirements []]
  else
  let newDesc := extractValue userInput re_description in
  if includes input "description" && nonempty newDesc then
    changed (<["description" := VStr newDesc]> data)
      [OnProjectUpdate "description" (VStr newDesc)]
  else
  let newAudience := extractValue userInput re_audience in
  if includes input "audience" && nonempty newAudience then
    changed (<["audience" := VStr newAudience]> data)
      [OnProjectUpdate "audience" (VStr newAudience)]
  else
  let value := extractValue userInput re_data_sources in
  if includes input "data source" && nonempty value then
    let newSources := split_trim value in
    changed (<["data_sources" := VList newSources]> data)
      [SaveFunctionalRequirements [("data_sources", VList newSources)]]
  else
  let value := extractValue userInput re_metrics in
  if includes input "metric" && nonempty value then
    let newMetrics := split_trim value in
    changed (<["metrics" := VList newMetrics]> data)
      [SaveFunctionalRequirements [("metrics", VList newMetrics)]]
  else
  let newTabs := extractValue userInput re_tabs in
  if includes input "tab" && nonempty newTabs then
    changed (<["tabs" := VStr newTabs]> data) [SaveTabs newTabs]
  else
  let value := extractValue userInput re_filters in
  if includes input "filter" && nonempty value then
    let newFilters := split_trim value in
    changed (<["filters" := VList newFilters]> data) [SaveFilters newFilters]
  else
    changed data [].

(** *** generateResponse *)

Definition reply (s : StepId) (data : gmap string jsval) (es : list Effect) : Response :=
  {| newState := {| step := s; data := data |}; effects := es |}.

(** [userInput] looks like an edit command *)
Definition is_edit_command (userInput : string) : bool :=
  startsWith (toLowerCase userInput) "change "
  || startsWith (toLowerCase userInput) "update "
  || includes (toLowerCase userInput) " to ".

(** [newData.additional_requirements.push(userInput)], on the array that the
    key holds in this flow, created when the key is not there. *)
Definition push_additional (userInput : string)
    (newData : gmap string jsval) : gmap string jsval :=
  let cur := match newData !! "additional_requirements" with
             | Some (VList l) => l
             | _ => []
             end in
  <["additional_requirements" := VList (cur ++ [userInput])]> newData.

Definition generateResponse (userInput : string) (state : ConversationState)
    : Response * option (gmap string jsval) :=
  let newData := data state in
  match step state with
  | SName =>
      (reply SDescription (<["name" := VStr userInput]> newData)
         [OnProjectUpdate "name" (VStr userInput)], None)
  | SDescription =>
      (reply SAudience (<["description" := VStr userInput]> newData)
         [OnProjectUpdate "description" (VStr userInput)], None)
  | SAudience =>
      (reply SDataSources (<["audience" := VStr userInput]> newData)
         [OnProjectUpdate "audience" (VStr userInput)], None)
  | SDataSources =>
      let v := map trim (split "," userInput) in
      (reply SMetrics (<["data_sources" := VList v]> newData)
         [SaveFunctionalRequirements [("data_sources", VList v)]], None)
  | SMetrics =>
      let v := map trim (split "," userInput) in
      (reply STabs (<["metrics" := VList v]> newData)
         [SaveFunctionalRequirements [("metrics", VList v)]], None)
  | STabs =>
      (reply SFilters (<["tabs" := VStr userInput]> newData) [SaveTabs userInput], None)
  | SFilters =>
      let v := if bool_decide (toLowerCase userInput = "none") then []
               else map trim (split "," userInput) in
      (reply SAppendix (<["filters" := VList v]> newData) [SaveFilters v], None)
  | SAppendix =>
      let b := includes (toLowerCase userInput) "yes" in
      (reply SMetricLogic (<["has_appendix" := VBool b]> newData)
         [OnProjectUpdate "has_appendix_tab" (VBool b)], None)
  | SMetricLogic =>
      let b := includes (toLowerCase userInput) "yes" in
      (reply SAdditional (<["has_metric_logic" := VBool b]> newData)
         [OnProjectUpdate "has_metric_logic_tab" (VBool b)], None)
  | SAdditional =>
      if bool_decide (toLowerCase userInput = "done") then
        (reply SComplete newData [], Some newData)
      else if bool_decide (toLowerCase userInput = "help") || bool_decide (toLowerCase userInput = "?") then
        (reply SAdditional newData [], None)
      else if is_edit_command userInput then
        (handleChangeRequest userInput newData, None)
      else
        (reply SAdditional (push_additional userInput newData)
           [SaveAdditionalRequirement userInput], None)
  | SChangeRequest => (handleChangeRequest userInput newData, None)
  | SComplete =>
      if bool_decide (toLowerCase userInput = "help") || bool_decide (toLowerCase userInput = "?") then
        (reply SComplete newData [], None)
      else if is_edit_command userInput then
        (handleChangeRequest userInput newData, None)
      else
        (reply SComplete (push_additional userInput newData)
           [SaveAdditionalRequirement userInput], None)
  | _ => ({| newState := state; effects := [] |}, None)
  end.

(** The part of the component's state that [handleSend] reads and writes. *)
Record ChatState := {
  input : string;
  isTyping : bool;
  conversationState : ConversationState;
}.

(** [handleSend], with the reply that its timer delivers a second later. *)
Definition handleSend (st : ChatState) : ChatState * list Effect :=
  if negb (nonempty (trim (input st))) || isTyping st then (st, [])
  else
    let response := generateResponse (input st) (conversationState st) in
    ({| input := ""; isTyping := false;
        conversationState := newState (fst response) |},
     effects (fst response)).

(** *** The writes behind the effects *)

Definition tabNames (tabsInput : string) : list string :=
  if includes tabsInput "," then map trim (split "," tabsInput)
  else [trim tabsInput].

Definition saveTabs (projectId : uuid) (tabsInput : string)
    (dashboard_tabs : list TabRow) : list TabRow :=
  let tabsToInsert :=
    mapi (λ name index,
            {| tab_project_id := projectId; tab_name := name; tab_order_index := index |})
         (tabNames tabsInput) in
  filter (λ r, tab_project_id r ≠ projectId) dashboard_tabs ++ tabsToInsert.

(** [projectId] is in scope in the component, and [saveFilters] does not
    read it: the delete selects on [tab_id] alone and the inserted rows have
    no [project_id]. *)
Definition saveFilters (projectId : uuid) (filterNames : list string)
    (filters : list FilterRow) : list FilterRow :=
  let filtersToInsert :=
    map (λ name, {| f_project_id := None; f_tab_id := None; f_name := name;
                    f_data_source := ""; f_multi_select := false |})
        filterNames in
  let filters := filter (λ r, f_tab_id r ≠ None) filters in
  if bool_decide (filtersToInsert ≠ []) then filters ++ filtersToInsert else filters.

Definition saveAdditionalRequirement (projectId : uuid) (content : string)
    (additional_requirements : list AdditionalRequirementRow)
    : list AdditionalRequirementRow :=
  additional_requirements ++
  [{| ar_project_id := projectId; ar_category := "functional"; ar_content := content |}].

End RequirementsChat.

(** ** DesignRequirementsChat: the design-requirements flow *)

Module DesignRequirementsChat.
Import JS.

Definition loadExistingRequirements (projectId : uuid)
    (design_requirements : list DesignRequirementsRow) : gmap string jsval :=
  let data : gmap string jsval := ∅ in
  match maybeSingle (filter (λ r, dr_project_id r = projectId) design_requirements) with
  | Some designReqs =>
      let data := set_if (text_filled (dr_dashboard_size designReqs)) "dashboard_size"
                    (VStr (default "" (dr_dashboard_size designReqs))) data in
      let data := set_if (array_filled (dr_color_palette designReqs)) "color_palette"
                    (VList (default [] (dr_color_palette designReqs))) data in
      let data := set_if (array_filled (dr_fonts designReqs)) "fonts"
                    (VList (default [] (dr_fonts designReqs))) data in
      let data := set_if (text_filled (dr_logo_url designReqs)) "logo_url"
                    (VStr (default "" (dr_logo_url designReqs))) data in
      let data := set_if (text_filled (dr_logo_location designReqs)) "logo_location"
                    (VStr (default "" (dr_logo_location designReqs))) data in
      set_if (text_filled (dr_additional_requirements designReqs)) "additional_requirements"
        (VStr (default "" (dr_additional_requirements designReqs))) data
  | None => data
  end.

Definition determineNextStep (data : gmap string jsval) : StepId :=
  if negb (truthy (data !! "dashboard_size")) then SDashboardSize
  else if negb (truthy (data !! "color_palette")) then SColorPalette
  else if negb (truthy (data !! "fonts")) then SFonts
  else if negb (truthy (data !! "logo_url")) then SLogo
  else if negb (truthy (data !! "additional_requirements")) then SAdditional
  else SComplete.

Definition initializeChat (projectId : uuid)
    (design_requirements : list DesignRequirementsRow) : ConversationState :=
  let existingData := loadExistingRequirements projectId design_requirements in
  {| step := determineNextStep existingData; data := existingData |}.

(** [saveDesignRequirements(updates)]: [updates] is the patch applied to the
    project's row, or to a new row when the project has none. *)
Definition saveDesignRequirements (projectId : uuid)
    (updates : DesignRequirementsRow → DesignRequirementsRow)
    (design_requirements : list DesignRequirementsRow) : list DesignRequirementsRow :=
  match maybeSingle (filter (λ r, dr_project_id r = projectId) design_requirements) with
  | Some _ =>
      map (λ r, if decide (dr_project_id r = projectId) then updates r else r)
        design_requirements
  | None =>
      design_requirements ++
      [updates {| dr_project_id := projectId; dr_dashboard_size := None;
                  dr_color_palette := None; dr_fonts := None; dr_logo_url := None;
                  dr_logo_location := None; dr_additional_requirements := None |}]
  end.

Definition set_dashboard_size (v : string) (r : DesignRequirementsRow) :=
  {| dr_project_id := dr_project_id r; dr_dashboard_size := Some v;
     dr_color_palette := dr_color_palette r; dr_fonts := dr_fonts r;
     dr_logo_url := dr_logo_url r; dr_logo_location := dr_logo_location r;
     dr_additional_requirements := dr_additional_requirements r |}.

Definition set_color_palette (v : list string) (r : DesignRequirementsRow) :=
  {| dr_project_id := dr_project_id r; dr_dashboard_size := dr_dashboard_size r;
     dr_color_palette := Some v; dr_fonts := dr_fonts r;
     dr_logo_url := dr_logo_url r; dr_logo_location := dr_logo_location r;
     dr_additional_requirements := dr_additional_requirements r |}.

Definition set_fonts (v : list string) (r : DesignRequirementsRow) :=
  {| dr_project_id := dr_project_id r; dr_dashboard_size := dr_dashboard_size r;
     dr_color_palette := dr_color_palette r; dr_fonts := Some v;
     dr_logo_url := dr_logo_url r; dr_logo_location := dr_logo_location r;
     dr_additional_requirements := dr_additional_requirements r |}.

Definition set_logo_url (v : string) (r : DesignRequirementsRow) :=
  {| dr_project_id := dr_project_id r; dr_dashboard_size := dr_dashboard_size r;
     dr_color_palette := dr_color_palette r; dr_fonts := dr_fonts r;
     dr_logo_url := Some v; dr_logo_location := dr_logo_location r;
     dr_additional_requirements := dr_additional_requirements r |}.

Definition set_logo_location (v : string) (r : DesignRequirementsRow) :=
  {| dr_project_id := dr_project_id r; dr_dashboard_size := dr_dashboard_size r;
     dr_color_palette := dr_color_palette r; dr_fonts := dr_fonts r;
     dr_logo_url := dr_logo_url r; dr_logo_location := Some v;
     dr_additional_requirements := dr_additional_requirements r |}.

Definition set_additional_requirements (v : string) (r : DesignRequirementsRow) :=
  {| dr_project_id := dr_project_id r; dr_dashboard_size := dr_dashboard_size r;
     dr_color_palette := dr_color_palette r; dr_fonts := dr_fonts r;
     dr_logo_url := dr_logo_url r; dr_logo_location := dr_logo_location r;
     dr_additional_requirements := Some v |}.

(** [userInput.split(',').map(c => c.trim()).filter(c => c)] *)
Definition split_trim_filter (userInput : string) : list string :=
  filter (λ c, nonempty c = true) (map trim (split "," userInput)).

(** [processUserInput]: the new conversation state and the table after the
    awaited save. *)
Definition processUserInput (projectId : uuid) (userInput : string)
    (conversationState : ConversationState)
    (design_requirements : list DesignRequirementsRow)
    : ConversationState * list DesignRequirementsRow :=
  let updatedData := data conversationState in
  let next (updatedData : gmap string jsval) (tbl : list DesignRequirementsRow) :=
    ({| step := determineNextStep updatedData; data := updatedData |}, tbl) in
  match step conversationState with
  | SDashboardSize =>
      next (<["dashboard_size" := VStr userInput]> updatedData)
        (saveDesignRequirements projectId (set_dashboard_size userInput) design_requirements)
  | SColorPalette =>
      let colors := split_trim_filter userInput in
      next (<["color_palette" := VList colors]> updatedData)
        (saveDesignRequirements projectId (set_color_palette colors) design_requirements)
  | SFonts =>
      let fonts := split_trim_filter userInput in
      next (<["fonts" := VList fonts]> updatedData)
        (saveDesignRequirements projectId (set_fonts fonts) design_requirements)
  | SLogo =>
      let logoLower := toLowerCase userInput in
      if includes logoLower "none" || includes logoLower "no" then
        next (<["logo_location" := VStr "none"]> (<["logo_url" := VStr ""]> updatedData))
          (saveDesignRequirements projectId
             (λ r, set_logo_location "none" (set_logo_url "" r)) design_requirements)
      else
        next (<["logo_location" := VStr userInput]> updatedData)
          (saveDesignRequirements projectId (set_logo_location userInput) design_requirements)
  | SAdditional =>
      next (<["additional_requirements" := VStr userInput]> updatedData)
        (saveDesignRequirements projectId (set_additional_requirements userInput)
           design_requirements)
  | SComplete => (conversationState, design_requirements)
  | _ => next updatedData design_requirements
  end.

(** [handleSendMessage]: the guard, then [processUserInput] on the trimmed input. *)
Definition handleSendMessage (projectId : uuid) (input : string) (isTyping : bool)
    (conversationState : ConversationState)
    (design_requirements : list DesignRequirementsRow)
    : ConversationState * list DesignRequirementsRow :=
  if negb (nonempty (trim input)) || isTyping then (conversationState, design_requirements)
  else processUserInput projectId (trim input) conversationState design_requirements.

End DesignRequirementsChat.

(** ** ProjectEditor: the project lifecycle *)

Module ProjectEditor.

(** The component's state that the lifecycle handlers read and write. *)
Record EditorState := {
  project : option ProjectRow;
  user : option uuid;
  showEnhancementDialog : bool;
}.

(** The editor together with the two tables it writes. *)
Record World := {
  editor : EditorState;
  projects : list ProjectRow;
  change_history : list ChangeHistoryRow;
}.

Definition createChangeHistory (user : option uuid) (projectId : uuid)
    (changeType description : string)
    (change_history : list ChangeHistoryRow) : list ChangeHistoryRow :=
  match user with
  | None => change_history
  | Some u =>
      change_history ++
      [{| ch_project_id := projectId; ch_changed_by := u;
          ch_change_type := changeType; ch_change_description := description |}]
  end.

Definition set_status (status : string) (updated_by : uuid) (r : ProjectRow) : ProjectRow :=
  {| p_id := p_id r; p_name := p_name r; p_description := p_description r;
     p_audience := p_audience r; p_status := status; p_created_by := p_created_by r;
     p_updated_by := Some updated_by;
     p_parent_project_id := p_parent_project_id r;
     p_version_number := p_version_number r;
     p_has_appendix_tab := p_has_appendix_tab r;
     p_has_metric_logic_tab := p_has_metric_logic_tab r |}.

(** [{ ...project, status }]: the copy kept in the component has no
    [updated_by] written to it. *)
Definition with_status (status : string) (r : ProjectRow) : ProjectRow :=
  {| p_id := p_id r; p_name := p_name r; p_description := p_description r;
     p_audience := p_audience r; p_status := status; p_created_by := p_created_by r;
     p_updated_by := p_updated_by r;
     p_parent_project_id := p_parent_project_id r;
     p_version_number := p_version_number r;
     p_has_appendix_tab := p_has_appendix_tab r;
     p_has_metric_logic_tab := p_has_metric_logic_tab r |}.

(** [markAsDone], that is [updateProject({ status: 'done' })] *)
Definition markAsDone (w : World) : World :=
  match project (editor w), user (editor w) with
  | Some p, Some u =>
      {| editor := {| project := Some (with_status "done" p);
                      user := Some u;
                      showEnhancementDialog := showEnhancementDialog (editor w) |};
         projects := map (λ r, if decide (p_id r = p_id p) then set_status "done" u r else r)
                       (projects w);
         change_history :=
           createChangeHistory (Some u) (p_id p) "update" "Project updated"
             (change_history w) |}
  | _, _ => w
  end.

(** [project.parent_project_id || project.id] *)
Definition rootId (p : ProjectRow) : uuid :=
  default (p_id p) (p_parent_project_id p).

(** [.or(`id.eq.${rootId},parent_project_id.eq.${rootId}`)] *)
Definition in_tree (root : uuid) (r : ProjectRow) : Prop :=
  p_id r = root ∨ p_parent_project_id r = Some root.

Global Instance in_tree_dec root r : Decision (in_tree root r).
Proof. unfold in_tree. apply _. Defined.

(** [.order('version_number', { ascending: false })] *)
Definition version_desc (a b : ProjectRow) : Prop :=
  p_version_number b ≤ p_version_number a.

Global Instance version_desc_dec : RelDecision version_desc.
Proof. intros a b. unfold version_desc. apply _. Defined.

Definition getLatestVersion (project : option ProjectRow)
    (projects : list ProjectRow) : Z :=
  match project with
  | None => 1
  | Some p =>
      let data :=
        maybeSingle
          (take 1 (merge_sort version_desc (filter (in_tree (rootId p)) projects))) in
      match data with
      | Some r => if decide (p_version_number r = 0) then p_version_number p
                  else p_version_number r
      | None => p_version_number p
      end
  end.

(** The row that [createEnhancement] inserts; [new_id] is the key that the
    store generates for it. *)
Definition enhancementProject (new_id : uuid) (p : ProjectRow) (u : uuid)
    (newVersion : Z) : ProjectRow :=
  {| p_id := new_id;
     p_name := p_name p +:+ " - Enhancement v" +:+ pretty newVersion;
     p_description := p_description p;
     p_audience := p_audience p;
     p_status := "draft";
     p_created_by := u;
     p_updated_by := None;
     p_parent_project_id := Some (rootId p);
     p_version_number := newVersion;
     p_has_appendix_tab := p_has_appendix_tab p;
     p_has_metric_logic_tab := p_has_metric_logic_tab p |}.

Definition createEnhancement (new_id : uuid) (w : World) : World :=
  match project (editor w), user (editor w) with
  | Some p, Some u =>
      let latestVersion := getLatestVersion (Some p) (projects w) in
      let newVersion := latestVersion + 1 in
      let data := enhancementProject new_id p u newVersion in
      {| editor := {| project := Some data; user := Some u;
                      showEnhancementDialog := false |};
         projects := projects w ++ [data];
         change_history :=
           createChangeHistory (Some u) (p_id data) "version"
             ("Created enhancement version " +:+ pretty newVersion)
             (change_history w) |}
  | _, _ => w
  end.

(** What the user can click in the header and in the enhancement dialog.
    The other handlers of the component write neither [status] nor
    [showEnhancementDialog]. *)
Inductive Event :=
| ClickMarkAsDone
| ClickCreateEnhancement
| ClickDialogCancel
| ClickDialogCreate (new_id : uuid).

Definition set_dialog (b : bool) (w : World) : World :=
  {| editor := {| project := project (editor w); user := user (editor w);
                  showEnhancementDialog := b |};
     projects := projects w;
     change_history := change_history w |}.

(** A click on a button that is disabled, or that is not rendered, does
    nothing. While [project] is [null] the component renders a spinner. *)
Definition handle (e : Event) (w : World) : World :=
  match project (editor w) with
  | None => w
  | Some p =>
      match e with
      | ClickMarkAsDone =>
          (* disabled={project.status === 'done' || saving} *)
          if bool_decide (p_status p = "done") then w else markAsDone w
      | ClickCreateEnhancement =>
          (* disabled={project.status !== 'done'} *)
          if bool_decide (p_status p ≠ "done") then w else set_dialog true w
      | ClickDialogCancel =>
          if showEnhancementDialog (editor w) then set_dialog false w else w
      | ClickDialogCreate new_id =>
          if showEnhancementDialog (editor w) then createEnhancement new_id w else w
      end
  end.

(** The states the editor can be in: it mounts with the dialog closed. *)
Inductive reachable : World → Prop :=
| reachable_mount w :
    showEnhancementDialog (editor w) = false → reachable w
| reachable_handle e w :
    reachable w → reachable (handle e w).

(** While the enhancement dialog is open the project is done. *)
Definition dialog_only_when_done (w : World) : Prop :=
  showEnhancementDialog (editor w) = true →
  ∃ p, project (editor w) = Some p ∧ p_status p = "done".

End ProjectEditor.

(** ** TasksManager: the task list *)

Module TasksManager.
Import JS.

Record TasksState := {
  tasks : list TaskRow;
  newTaskDescription : string;
  draggedTaskId : option uuid;
}.

(** [Math.max(...l)] on a list that is not empty *)
Definition Math_max (l : list Z) : Z :=
  match l with
  | [] => 0
  | x :: l' => foldl Z.max x l'
  end.

Definition addTask (projectId new_id : uuid) (tbl : list TaskRow) (st : TasksState)
    : list TaskRow * TasksState :=
  if negb (nonempty (trim (newTaskDescription st))) then (tbl, st)
  else
    let maxOrder :=
      if bool_decide (tasks st ≠ []) then Math_max (map t_order_index (tasks st))
      else -1 in
    let data := {| t_id := new_id; t_project_id := projectId;
                   t_description := trim (newTaskDescription st);
                   t_order_index := maxOrder + 1; t_completed := false |} in
    (tbl ++ [data],
     {| tasks := tasks st ++ [data]; newTaskDescription := "";
        draggedTaskId := draggedTaskId st |}).


Definition handleDragStart (taskId : uuid) (st : TasksState) : TasksState :=
  {| tasks := tasks st; newTaskDescription := newTaskDescription st;
     draggedTaskId := Some taskId |}.

(** [l.findIndex(P)]: [-1] when no element satisfies [P] *)
Fixpoint findIndex_from {A} (P : A → bool) (i : Z) (l : list A) : Z :=
  match l with
  | [] => -1
  | x :: l' => if P x then i else findIndex_from P (i + 1) l'
  end.
Definition findIndex {A} (P : A → bool) (l : list A) : Z := findIndex_from P 0 l.

(** Where [l.splice(start, ...)] starts: a negative [start] counts from the
    end, and the result is clamped to the list. *)
Definition splice_start {A} (l : list A) (start : Z) : nat :=
  let len := Z.of_nat (length l) in
  Z.to_nat (if start <? 0 then Z.max (len + start) 0 else Z.min start len).

(** [l.splice(start, 1)]: the removed element, if there is one, and what is left *)
Definition splice_remove {A} (l : list A) (start : Z) : option A * list A :=
  let i := splice_start l start in
  (l !! i, take i l ++ drop (S i) l).

(** [l.splice(start, 0, x)] *)
Definition splice_insert {A} (l : list A) (start : Z) (x : A) : list A :=
  let i := splice_start l start in
  take i l ++ x :: drop i l.

Definition set_order_index (i : Z) (t : TaskRow) : TaskRow :=
  {| t_id := t_id t; t_project_id := t_project_id t; t_description := t_description t;
     t_order_index := i; t_completed := t_completed t |}.

(** [update({ order_index }).eq('id', id)] *)
Definition update_order_index (tbl : list TaskRow) (u : uuid * Z) : list TaskRow :=
  map (λ t, if decide (t_id t = u.1) then set_order_index u.2 t else t) tbl.

(** [handleDrop]: [None] stands for the [TypeError] raised when the list is
    empty and [draggedTask] is [undefined]. The rows kept in the component
    keep the [order_index] they were loaded with. *)
Definition handleDrop (dropIndex : Z) (tbl : list TaskRow) (st : TasksState)
    : option (list TaskRow * TasksState) :=
  match draggedTaskId st with
  | None => Some (tbl, st)
  | Some dragged =>
      let draggedIndex := findIndex (λ t, bool_decide (t_id t = dragged)) (tasks st) in
      if bool_decide (draggedIndex = dropIndex) then
        Some (tbl, {| tasks := tasks st; newTaskDescription := newTaskDescription st;
                      draggedTaskId := None |})
      else
        match splice_remove (tasks st) draggedIndex with
        | (None, _) => None
        | (Some draggedTask, newTasks) =>
            let newTasks := splice_insert newTasks dropIndex draggedTask in
            let updates := mapi (λ task idx, (t_id task, idx)) newTasks in
            Some (foldl update_order_index tbl updates,
                  {| tasks := newTasks; newTaskDescription := newTaskDescription st;
                     draggedTaskId := None |})
        end
  end.

(** [loadTasks]'s query: the project's rows *)
Definition project_tasks (projectId : uuid) (tbl : list TaskRow) : list TaskRow :=
  filter (λ t, t_project_id t = projectId) tbl.

End TasksManager.

(** ** The specification's reading of the same operations *)

Module Spec.
Import JS.

(** A flow is an ordered list of steps, each with the test that tells
    whether its field has been answered. *)
Definition flow := list (StepId * (gmap string jsval → bool)).

(** Resume-at-first-gap: the first step of the flow whose field is still
    empty, and [terminal] when no field is. *)
Fixpoint first_gap (order : flow) (terminal : StepId) (d : gmap string jsval) : StepId :=
  match order with
  | [] => terminal
  | (s, filled) :: rest => if filled d then first_gap rest terminal d else s
  end.

(** name → description → audience → data_sources → metrics → tabs → filters
    → appendix → metric_logic, then additional *)
Definition functional_fields : flow :=
  [ (SName, λ d, truthy (d !! "name"));
    (SDescription, λ d, truthy (d !! "description"));
    (SAudience, λ d, truthy (d !! "audience"));
    (SDataSources, λ d, truthy (d !! "data_sources"));
    (SMetrics, λ d, truthy (d !! "metrics"));
    (STabs, λ d, truthy (d !! "tabs"));
    (SFilters, λ d, truthy (d !! "filters"));
    (SAppendix, λ d, negb (is_undefined (d !! "has_appendix")));
    (SMetricLogic, λ d, negb (is_undefined (d !! "has_metric_logic"))) ].

(** dashboard_size → color_palette → fonts → logo → additional, then
    complete; the logo step counts as answered when a logo URL is held. *)
Definition design_fields : flow :=
  [ (SDashboardSize, λ d, truthy (d !! "dashboard_size"));
    (SColorPalette, λ d, truthy (d !! "color_palette"));
    (SFonts, λ d, truthy (d !! "fonts"));
    (SLogo, λ d, truthy (d !! "logo_url"));
    (SAdditional, λ d, truthy (d !! "additional_requirements")) ].

(** Every field of [pre] has been answered in [d]. *)
Definition all_filled (pre : flow) (d : gmap string jsval) : Prop :=
  Forall (λ sf, sf.2 d = true) pre.

(** [parseList]: split on [,], trim each token, drop the empty tokens. *)
Definition parseList (rawInput : string) : list string :=
  filter (λ t, t ≠ EmptyString) (map trim (split "," rawInput)).

(** The Change Interpreter as a table: the keyword looked for in the
    lower-cased input, the pattern handed to [extractValue], the key of
    [data] that is written, the parsing rule of the field, and the writes
    that persist the value. The order of the table is the order of priority. *)
Record FieldRule := {
  keyword : string;
  pattern : regex;
  key : string;
  parse : string → jsval;
  persist : string → list Effect;
}.

Definition field_rules : list FieldRule :=
  [ {| keyword := "name"; pattern := RequirementsChat.re_name;
       key := "name"; parse := VStr;
       persist := λ v, [OnProjectUpdate "name" (VStr v); SaveFunctionalRequirements []] |};
    {| keyword := "description"; pattern := RequirementsChat.re_description;
       key := "description"; parse := VStr;
       persist := λ v, [OnProjectUpdate "description" (VStr v)] |};
    {| keyword := "audience"; pattern := RequirementsChat.re_audience;
       key := "audience"; parse := VStr;
       persist := λ v, [OnProjectUpdate "audience" (VStr v)] |};
    {| keyword := "data source"; pattern := RequirementsChat.re_data_sources;
       key := "data_sources"; parse := λ v, VList (RequirementsChat.split_trim v);
       persist := λ v, [SaveFunctionalRequirements
                          [("data_sources", VList (RequirementsChat.split_trim v))]] |};
    {| keyword := "metric"; pattern := RequirementsChat.re_metrics;
       key := "metrics"; parse := λ v, VList (RequirementsChat.split_trim v);
       persist := λ v, [SaveFunctionalRequirements
                          [("metrics", VList (RequirementsChat.split_trim v))]] |};
    {| keyword := "tab"; pattern := RequirementsChat.re_tabs;
       key := "tabs"; parse := VStr;
       persist := λ v, [SaveTabs v] |};
    {| keyword := "filter"; pattern := RequirementsChat.re_filters;
       key := "filters"; parse := λ v, VList (RequirementsChat.split_trim v);
       persist := λ v, [SaveFilters (RequirementsChat.split_trim v)] |} ].

(** The rule applies to the message: its keyword occurs and a value that is
    not empty can be extracted for it. *)
Definition applies (userInput : string) (f : FieldRule) : bool :=
  includes (toLowerCase userInput) (keyword f)
  && nonempty (RequirementsChat.extractValue userInput (pattern f)).

(** The first rule, in the order of priority, that applies. *)
Fixpoint first_match (userInput : string) (rules : list FieldRule) : option FieldRule :=
  match rules with
  | [] => None
  | f :: rules' => if applies userInput f then Some f else first_match userInput rules'
  end.

(** The edit of one message: the field of the first rule that applies is
    written, and nothing else. *)
Definition interpret (userInput : string) (data : gmap string jsval) : gmap string jsval :=
  match first_match userInput field_rules with
  | Some f => <[key f := parse f (RequirementsChat.extractValue userInput (pattern f))]> data
  | None => data
  end.

(** The writes of one message: those of the first rule that applies, and
    none when no rule does. *)
Definition interpret_writes (userInput : string) : list Effect :=
  match first_match userInput field_rules with
  | Some f => persist f (RequirementsChat.extractValue userInput (pattern f))
  | None => []
  end.


(** The global filters of a project: its rows with no [tab_id]. *)
Definition global_filters (projectId : uuid) (filters : list FilterRow) : list FilterRow :=
  filter (λ r, f_project_id r = Some projectId ∧ f_tab_id r = None) filters.

(** The first field, in the order given, that is not filled, and [terminal]
    when every field is. *)
Fixpoint first_empty (fields : list (StepId * bool)) (terminal : StepId) : StepId :=
  match fields with
  | [] => terminal
  | (s, filled) :: rest => if filled then first_empty rest terminal else s
  end.

(** The persisted requirements record of project [p], field by field in the
    order of the functional flow, each with whether it is filled: the texts
    of the project row, the two lists of its functional-requirements row
    [f], its own tabs, its own global filters, and the two flags. *)
Definition functional_record (p : ProjectRow) (f : option FunctionalRequirementsRow)
    (tabs : list TabRow) (filters : list FilterRow) : list (StepId * bool) :=
  [ (SName, nonempty (p_name p));
    (SDescription, nonempty (p_description p));
    (SAudience, nonempty (p_audience p));
    (SDataSources, array_filled (f ≫= fr_data_sources));
    (SMetrics, array_filled (f ≫= fr_metrics));
    (STabs, bool_decide (filter (λ r, tab_project_id r = p_id p) tabs ≠ []));
    (SFilters, bool_decide (global_filters (p_id p) filters ≠ []));
    (SAppendix, bool_decide (p_has_appendix_tab p ≠ None));
    (SMetricLogic, bool_decide (p_has_metric_logic_tab p ≠ None)) ].

(** The same for the design flow. The answer of the logo step is kept in
    [logo_location]; a logo held by its URL counts as well. *)
Definition design_record (row : DesignRequirementsRow) : list (StepId * bool) :=
  [ (SDashboardSize, text_filled (dr_dashboard_size row));
    (SColorPalette, array_filled (dr_color_palette row));
    (SFonts, array_filled (dr_fonts row));
    (SLogo, text_filled (dr_logo_url row) || text_filled (dr_logo_location row));
    (SAdditional, text_filled (dr_additional_requirements row)) ].

(** Where [x] stands in [l]. *)
Fixpoint position (x : uuid) (l : list uuid) : option nat :=
  match l with
  | [] => None
  | y :: l' => if decide (y = x) then Some 0%nat else S <$> position x l'
  end.

(** [c] does not occur in [s]. *)
Fixpoint free_of (c : ascii) (s : string) : Prop :=
  match s with
  | EmptyString => True
  | String x s' => x ≠ c ∧ free_of c s'
  end.

(** [s] is white space only. *)
Fixpoint blank (s : string) : Prop :=
  match s with
  | EmptyString => True
  | String c s' => JS.is_white_space c = true ∧ blank s'
  end.

Definition starts_with_space (s : string) : Prop :=
  match s with
  | String c _ => JS.is_white_space c = true
  | EmptyString => False
  end.

Fixpoint ends_with_space (s : string) : Prop :=
  match s with
  | EmptyString => False
  | String c EmptyString => JS.is_white_space c = true
  | String _ s' => ends_with_space s'
  end.

(** A row whose id stands at [i] in [ids] gets the index [k + i]; the other
    rows stay. *)
Definition renumber (ids : list uuid) (k : Z) (t : TaskRow) : TaskRow :=
  match position (t_id t) ids with
  | Some i => TasksManager.set_order_index (k + Z.of_nat i) t
  | None => t
  end.

(** The same, as the index that [handleDrop] writes. *)
Definition index_of (ids : list uuid) (x : uuid) : Z :=
  match position x ids with
  | Some i => Z.of_nat i
  | None => -1
  end.

End Spec.

(** ** Sample data *)

Module Examples.
Import ProjectEditor.

(** Root R is version 1; its enhancement E1 is version 2 and done. *)
Definition project_R : ProjectRow :=
  {| p_id := 10; p_name := "Sales"; p_description := "d"; p_audience := "a";
     p_status := "done"; p_created_by := 1; p_updated_by := None;
     p_parent_project_id := None; p_version_number := 1;
     p_has_appendix_tab := Some false; p_has_metric_logic_tab := Some false |}.

Definition project_E1 : ProjectRow :=
  {| p_id := 11; p_name := "Sales - Enhancement v2"; p_description := "d";
     p_audience := "a"; p_status := "done"; p_created_by := 1;
     p_updated_by := Some 1%nat;
     p_parent_project_id := Some 10%nat; p_version_number := 2;
     p_has_appendix_tab := Some false; p_has_metric_logic_tab := Some false |}.

Definition world_R_E1 : World :=
  {| editor := {| project := Some project_E1; user := Some 1%nat;
                  showEnhancementDialog := true |};
     projects := [project_R; project_E1];
     change_history := [] |}.

(** The same tree while E1 is still a draft, open in the editor. *)
Definition project_E1_draft : ProjectRow :=
  {| p_id := 11; p_name := "Sales - Enhancement v2"; p_description := "d";
     p_audience := "a"; p_status := "draft"; p_created_by := 1;
     p_updated_by := None;
     p_parent_project_id := Some 10%nat; p_version_number := 2;
     p_has_appendix_tab := Some false; p_has_metric_logic_tab := Some false |}.

Definition world_R_E1_draft : World :=
  {| editor := {| project := Some project_E1_draft; user := Some 1%nat;
                  showEnhancementDialog := false |};
     projects := [project_R; project_E1_draft];
     change_history := [] |}.

Definition project_draft : ProjectRow :=
  {| p_id := 10; p_name := "Sales"; p_description := ""; p_audience := "";
     p_status := "draft"; p_created_by := 1; p_updated_by := None;
     p_parent_project_id := None; p_version_number := 1;
     p_has_appendix_tab := Some false; p_has_metric_logic_tab := Some false |}.

Definition world_draft : World :=
  {| editor := {| project := Some project_draft; user := Some 1%nat;
                  showEnhancementDialog := false |};
     projects := [project_draft];
     change_history := [] |}.

(** A global filter that project 2 added in its preview. *)
Definition filter_region : FilterRow :=
  {| f_project_id := Some 2%nat; f_tab_id := None; f_name := "Region";
     f_data_source := ""; f_multi_select := false |}.

(** The row that the chat writes for the answer ["Date"]. *)
Definition filter_date : FilterRow :=
  {| f_project_id := None; f_tab_id := None; f_name := "Date";
     f_data_source := ""; f_multi_select := false |}.

(** Project 1 in the middle of the functional chat: everything up to the
    tabs is answered, the filters and the two flags are not. *)
Definition project_asked_tabs : ProjectRow :=
  {| p_id := 1; p_name := "Sales"; p_description := "Monthly sales";
     p_audience := "Managers"; p_status := "draft"; p_created_by := 1;
     p_updated_by := None; p_parent_project_id := None; p_version_number := 1;
     p_has_appendix_tab := None; p_has_metric_logic_tab := None |}.

Definition functional_asked_tabs : FunctionalRequirementsRow :=
  {| fr_project_id := 1; fr_data_sources := Some ["SQL"]; fr_metrics := Some ["Revenue"] |}.

Definition tab_overview : TabRow :=
  {| tab_project_id := 1; tab_name := "Overview"; tab_order_index := 0 |}.

(** The design row of project 1 after the logo step was answered with a
    placement: the chat wrote [logo_location] and no [logo_url]. *)
Definition design_logo_answered : DesignRequirementsRow :=
  {| dr_project_id := 1; dr_dashboard_size := Some "1920x1080";
     dr_color_palette := Some ["blue"]; dr_fonts := Some ["Arial"];
     dr_logo_url := None; dr_logo_location := Some "top left";
     dr_additional_requirements := None |}.

(** The design chat at the logo step: size, palette and fonts are answered. *)
Definition at_logo : ConversationState :=
  {| step := SLogo;
     data := <["fonts" := JS.VList ["Arial"]]>
               (<["color_palette" := JS.VList ["blue"]]>
                  (<["dashboard_size" := JS.VStr "1920x1080"]> ∅)) |}.

(** Three tasks of project 1, numbered 0, 1, 2. *)
Definition task (id : uuid) (i : Z) : TaskRow :=
  {| t_id := id; t_project_id := 1; t_description := "t";
     t_order_index := i; t_completed := false |}.

Definition three_tasks : list TaskRow := [task 20 0; task 21 1; task 22 2].

Definition three_tasks_state : TasksManager.TasksState :=
  {| TasksManager.tasks := three_tasks;
     TasksManager.newTaskDescription := "write the report";
     TasksManager.draggedTaskId := Some 22%nat |}.

End Examples.

(** ** More of the components

    The functions of the same components that stand beside the ones above:
    the upsert of the functional requirements, the list fields of the two
    previews, the creation and the deletion of projects, the names of the
    downloaded files, the edits of a task, the global filters of the
    preview, and the age shown in the project list. *)

Module FunctionalRequirements.
Import JS.

(** One entry of the patch [{ data_sources }] or [{ metrics }]; the chat
    passes no other column. *)
Definition apply_update (r : FunctionalRequirementsRow) (u : string * jsval)
    : FunctionalRequirementsRow :=
  match u.2 with
  | VList l =>
      if decide (u.1 = "data_sources") then
        {| fr_project_id := fr_project_id r; fr_data_sources := Some l;
           fr_metrics := fr_metrics r |}
      else if decide (u.1 = "metrics") then
        {| fr_project_id := fr_project_id r; fr_data_sources := fr_data_sources r;
           fr_metrics := Some l |}
      else r
  | _ => r
  end.

(** [saveFunctionalRequirements(updates)] of RequirementsChat: update the
    project's row when there is one, insert a row otherwise. *)
Definition saveFunctionalRequirements (projectId : uuid)
    (updates : list (string * jsval))
    (functional_requirements : list FunctionalRequirementsRow)
    : list FunctionalRequirementsRow :=
  match maybeSingle (filter (λ r, fr_project_id r = projectId) functional_requirements) with
  | Some _ =>
      map (λ r, if decide (fr_project_id r = projectId) then foldl apply_update r updates
                else r)
        functional_requirements
  | None =>
      functional_requirements ++
      [foldl apply_update
         {| fr_project_id := projectId; fr_data_sources := None; fr_metrics := None |}
         updates]
  end.

(** The text that DocumentPreview puts in the edit box of a list:
    [functionalReqs.data_sources?.join(', ') || ''] *)
Definition editText (l : option (list string)) : string :=
  match l with
  | Some l => join ", " l
  | None => EmptyString
  end.

(** [localDataSources.split(',').map(v => v.trim()).filter(v => v)], which is
    also how DesignPreview's [saveEditField] reads a palette or a font list *)
Definition parseEdited (text : string) : list string :=
  filter (λ v, nonempty v = true) (map trim (split "," text)).

(** The write of [handleUpdate] of DocumentPreview to
    [functional_requirements]; [functionalReqs] is the row the preview has
    loaded, if any. *)
Definition handleUpdate (projectId : uuid)
    (functionalReqs : option FunctionalRequirementsRow)
    (localDataSources localMetrics : string)
    (functional_requirements : list FunctionalRequirementsRow)
    : list FunctionalRequirementsRow :=
  let dataSources := parseEdited localDataSources in
  let metrics := parseEdited localMetrics in
  match functionalReqs with
  | Some _ =>
      map (λ r, if decide (fr_project_id r = projectId) then
                  {| fr_project_id := fr_project_id r; fr_data_sources := Some dataSources;
                     fr_metrics := Some metrics |}
                else r)
        functional_requirements
  | None =>
      functional_requirements ++
      [{| fr_project_id := projectId; fr_data_sources := Some dataSources;
          fr_metrics := Some metrics |}]
  end.

End FunctionalRequirements.

(** The row that [saveDesignRequirements] starts from when the project has
    none: only [project_id] is set. *)
Definition blank_design_row (projectId : uuid) : DesignRequirementsRow :=
  {| dr_project_id := projectId; dr_dashboard_size := None;
     dr_color_palette := None; dr_fonts := None; dr_logo_url := None;
     dr_logo_location := None; dr_additional_requirements := None |}.

Module Lifecycle.
Import JS ProjectEditor.

(** [createNewProject]; [projectName || 'New Dashboard Project'] *)
Definition createNewProject (projectName : option string) (new_id : uuid)
    (w : World) : World :=
  match user (editor w) with
  | None => w
  | Some u =>
      let name := match projectName with
                  | Some n => if nonempty n then n else "New Dashboard Project"
                  | None => "New Dashboard Project"
                  end in
      let data := {| p_id := new_id; p_name := name; p_description := "";
                     p_audience := ""; p_status := "draft"; p_created_by := u;
                     p_updated_by := None; p_parent_project_id := None;
                     p_version_number := 1;
                     p_has_appendix_tab := Some false;
                     p_has_metric_logic_tab := Some false |} in
      {| editor := {| project := Some data; user := Some u;
                      showEnhancementDialog := showEnhancementDialog (editor w) |};
         projects := projects w ++ [data];
         change_history :=
           createChangeHistory (Some u) new_id "create" "Project created"
             (change_history w) |}
  end.

(** [delete().eq('id', id)] on [projects] *)
Definition delete_project_row (tbl : list ProjectRow) (id : uuid) : list ProjectRow :=
  filter (λ r, p_id r ≠ id) tbl.

(** [deleteProject]: the rows whose parent is the project are deleted one
    by one, then the project's own row. The rows of the other tables go with
    their project in the store and are not written here. *)
Definition deleteProject (w : World) : World :=
  match project (editor w) with
  | None => w
  | Some p =>
      let childProjects :=
        filter (λ r, p_parent_project_id r = Some (p_id p)) (projects w) in
      let tbl := foldl (λ tbl child, delete_project_row tbl (p_id child))
                   (projects w) childProjects in
      {| editor := editor w;
         projects := delete_project_row tbl (p_id p);
         change_history := change_history w |}
  end.




(** Ids are keys; a parent is a root that is there; versions start at 1 and
    no two versions of one tree carry the same number. *)
Record well_formed (tbl : list ProjectRow) : Prop := {
  wf_keys : NoDup (map p_id tbl);
  wf_two_levels :
    ∀ r q, r ∈ tbl → p_parent_project_id r = Some q →
           ∃ root, root ∈ tbl ∧ p_id root = q ∧ p_parent_project_id root = None;
  wf_versions_from_1 : ∀ r, r ∈ tbl → 1 ≤ p_version_number r;
  wf_versions_distinct :
    ∀ root, NoDup (map p_version_number (filter (in_tree root) tbl));
}.

(** The project that the editor shows has its row in the table: a row with
    its id and its parent (the copy in the editor may lag in other columns). *)
Definition persisted (cur : ProjectRow) (tbl : list ProjectRow) : Prop :=
  ∃ r, r ∈ tbl ∧ p_id r = p_id cur ∧ p_parent_project_id r = p_parent_project_id cur.

End Lifecycle.

(** [s] holds no line terminator: every character of it is matched by [.]. *)
Fixpoint one_line (s : string) : Prop :=
  match s with
  | EmptyString => True
  | String c s' => JS.dot c = true ∧ one_line s'
  end.

Module TaskEdits.
Import JS TasksManager.

Definition set_completed (b : bool) (t : TaskRow) : TaskRow :=
  {| t_id := t_id t; t_project_id := t_project_id t; t_description := t_description t;
     t_order_index := t_order_index t; t_completed := b |}.

Definition set_description (d : string) (t : TaskRow) : TaskRow :=
  {| t_id := t_id t; t_project_id := t_project_id t; t_description := d;
     t_order_index := t_order_index t; t_completed := t_completed t |}.

(** [toggleTaskCompletion(taskId, completed)]: [completed] is the flag of
    the row as the component shows it. *)
Definition toggleTaskCompletion (taskId : uuid) (completed : bool)
    (tbl : list TaskRow) (st : TasksState) : list TaskRow * TasksState :=
  let toggle := λ t, if decide (t_id t = taskId) then set_completed (negb completed) t
                      else t in
  (map toggle tbl,
   {| tasks := map toggle (tasks st); newTaskDescription := newTaskDescription st;
      draggedTaskId := draggedTaskId st |}).

(** The task being edited and the text typed for it *)
Record EditState := {
  editingTaskId : option uuid;
  editingTaskValue : string;
}.

(** [saveEditTask] *)
Definition saveEditTask (e : EditState) (tbl : list TaskRow) (st : TasksState)
    : EditState * list TaskRow * TasksState :=
  match editingTaskId e with
  | None => (e, tbl, st)
  | Some id =>
      if negb (nonempty (trim (editingTaskValue e))) then (e, tbl, st)
      else
        let edit := λ t, if decide (t_id t = id)
                         then set_description (trim (editingTaskValue e)) t else t in
        ({| editingTaskId := None; editingTaskValue := "" |},
         map edit tbl,
         {| tasks := map edit (tasks st); newTaskDescription := newTaskDescription st;
            draggedTaskId := draggedTaskId st |})
  end.

End TaskEdits.

(** The global filters as DocumentPreview and the export read and write them *)
Module DocumentPreview.

(** The filters query of [loadAllRequirements], which is also the one of
    [generateExportContent]: [.eq('project_id', projectId).is('tab_id', null)] *)
Definition loadFilters (projectId : uuid) (filters : list FilterRow) : list FilterRow :=
  filter (λ r, f_project_id r = Some projectId ∧ f_tab_id r = None) filters.

(** The insert behind the Add Filter button *)
Definition addFilter (projectId : uuid) (filters : list FilterRow) : list FilterRow :=
  filters ++
  [{| f_project_id := Some projectId; f_tab_id := None; f_name := "New Filter";
      f_data_source := ""; f_multi_select := false |}].

End DocumentPreview.

(** The age of a project as the project list words it *)
Module ProjectList.

(** The texts of [formatLastEdited]: [Just now], [${n}m ago], [${n}h ago],
    [${n}d ago], and the date in the format of the locale. *)
Inductive LastEdited :=
| JustNow
| MinutesAgo (diffMins : Z)
| HoursAgo (diffHours : Z)
| DaysAgo (diffDays : Z)
| LocaleDate.

(** [date] and [now] are the two [getTime()] values, in milliseconds;
    [Math.floor(x / k)] is [x / k] on integers. *)
Definition formatLastEdited (date now : Z) : LastEdited :=
  let diffMs := now - date in
  let diffMins := diffMs / 60000 in
  let diffHours := diffMs / 3600000 in
  let diffDays := diffMs / 86400000 in
  if diffMins <? 1 then JustNow
  else if diffMins <? 60 then MinutesAgo diffMins
  else if diffHours <? 24 then HoursAgo diffHours
  else if diffDays <? 7 then DaysAgo diffDays
  else LocaleDate.

End ProjectList.

(** * Properties *)

(** ** Resuming a conversation *)

Section Resume.
Import JS Spec.

Lemma maybeSingle_map {A B} (f : A → B) (l : list A) :
  maybeSingle (map f l) = f <$> maybeSingle l.
Proof. by destruct l as [|x [|y l]]. Qed.

Lemma maybeSingle_Some {A} (l : list A) r : maybeSingle l = Some r ↔ l = [r].
Proof.
  destruct l as [|x [|y l]]; simpl; split; intros Heq; try discriminate Heq; congruence.
Qed.

(** With at most one row, [null] means that there is no row. *)
Lemma maybeSingle_None {A} (l : list A) :
  (length l ≤ 1)%nat → maybeSingle l = None → l = [].
Proof. destruct l as [|x [|y l]]; simpl; intros Hlen Hnone; [done|done|lia]. Qed.

Lemma first_gap_skips (pre : flow) s filled (post : flow) terminal d :
  all_filled pre d → filled d = false →
  first_gap (pre ++ (s, filled) :: post) terminal d = s.
Proof.
  intros Hpre Hgap. induction Hpre as [|[s' f'] pre Hf _ IH]; simpl.
  - by rewrite Hgap.
  - simpl in Hf. by rewrite Hf.
Qed.

Lemma first_gap_all_filled (order : flow) terminal d :
  all_filled order d → first_gap order terminal d = terminal.
Proof.
  induction 1 as [|[s f] rest Hf _ IH]; simpl; [done|].
  simpl in Hf. by rewrite Hf.
Qed.

Lemma functional_resume d :
  RequirementsChat.determineNextStep d = first_gap functional_fields SAdditional d.
Proof.
  unfold RequirementsChat.determineNextStep, functional_fields; simpl.
  repeat (destruct (truthy _); simpl; [|reflexivity]).
  repeat (destruct (is_undefined _); simpl; [reflexivity|]).
  reflexivity.
Qed.

Lemma design_resume d :
  DesignRequirementsChat.determineNextStep d = first_gap design_fields SComplete d.
Proof.
  unfold DesignRequirementsChat.determineNextStep, design_fields; simpl.
  repeat (destruct (truthy _); simpl; [|reflexivity]).
  reflexivity.
Qed.

Lemma lookup_set_if_eq c k v (d : gmap string jsval) :
  set_if c k v d !! k = if c then Some v else d !! k.
Proof. unfold set_if. destruct c; [apply lookup_insert_eq | done]. Qed.

Lemma lookup_set_if_ne c k k' v (d : gmap string jsval) :
  k ≠ k' → set_if c k v d !! k' = d !! k'.
Proof. unfold set_if. destruct c; [apply lookup_insert_ne | done]. Qed.

Local Ltac lookup_loaded :=
  repeat first
    [ rewrite lookup_set_if_eq
    | rewrite lookup_set_if_ne by done
    | rewrite lookup_insert_eq
    | rewrite lookup_insert_ne by done
    | rewrite lookup_empty ].

(** What the design flow takes for answered in the persisted row: a text
    that is neither null nor empty, an array that holds an element. *)
Lemma design_loaded_fields pid designs row :
  maybeSingle (filter (λ r, dr_project_id r = pid) designs) = Some row →
  let d := DesignRequirementsChat.loadExistingRequirements pid designs in
  truthy (d !! "dashboard_size") = text_filled (dr_dashboard_size row) ∧
  truthy (d !! "color_palette") = array_filled (dr_color_palette row) ∧
  truthy (d !! "fonts") = array_filled (dr_fonts row) ∧
  truthy (d !! "logo_url") = text_filled (dr_logo_url row) ∧
  truthy (d !! "additional_requirements") = text_filled (dr_additional_requirements row).
Proof.
  intros Hrow d. subst d. unfold DesignRequirementsChat.loadExistingRequirements.
  rewrite Hrow. split_and!; lookup_loaded.
  - destruct (dr_dashboard_size row) as [[|]|]; done.
  - destruct (dr_color_palette row) as [[|]|]; done.
  - destruct (dr_fonts row) as [[|]|]; done.
  - destruct (dr_logo_url row) as [[|]|]; done.
  - destruct (dr_additional_requirements row) as [[|]|]; done.
Qed.

(** A project with no design row starts at the first step. *)
Lemma design_nothing_loaded pid designs :
  maybeSingle (filter (λ r, dr_project_id r = pid) designs) = None →
  step (DesignRequirementsChat.initializeChat pid designs) = SDashboardSize.
Proof.
  intros Hrow. unfold DesignRequirementsChat.initializeChat,
    DesignRequirementsChat.loadExistingRequirements.
  by rewrite Hrow.
Qed.

(** What the functional flow takes for answered in the persisted rows. The
    filters are read from the whole table: any row with no [tab_id] counts. *)
Lemma functional_loaded_fields pid projects funcs tabs filters adds p :
  maybeSingle (filter (λ r, p_id r = pid) projects) = Some p →
  let d := RequirementsChat.loadExistingRequirements pid projects funcs tabs filters adds in
  let funcReqs := maybeSingle (filter (λ r, fr_project_id r = pid) funcs) in
  truthy (d !! "name") = nonempty (p_name p) ∧
  truthy (d !! "description") = nonempty (p_description p) ∧
  truthy (d !! "audience") = nonempty (p_audience p) ∧
  truthy (d !! "data_sources") = array_filled (funcReqs ≫= fr_data_sources) ∧
  truthy (d !! "metrics") = array_filled (funcReqs ≫= fr_metrics) ∧
  truthy (d !! "filters") = bool_decide (filter (λ r, f_tab_id r = None) filters ≠ []) ∧
  is_undefined (d !! "has_appendix") = bool_decide (p_has_appendix_tab p = None) ∧
  is_undefined (d !! "has_metric_logic") = bool_decide (p_has_metric_logic_tab p = None).
Proof.
  intros Hp d funcReqs. subst d funcReqs.
  unfold RequirementsChat.loadExistingRequirements. rewrite Hp.
  destruct (maybeSingle (filter (λ r, fr_project_id r = pid) funcs)) as [f|];
    destruct (p_has_appendix_tab p) as [ba|];
    destruct (p_has_metric_logic_tab p) as [bm|]; simpl;
    (split_and!; lookup_loaded; try done).
  all: try (by destruct (p_name p)).
  all: try (by destruct (p_description p)).
  all: try (by destruct (p_audience p)).
  all: try (by destruct (fr_data_sources f) as [[|]|]).
  all: try (by destruct (fr_metrics f) as [[|]|]).
  all: try (by case_bool_decide).
Qed.

(** The step on re-opening is the first gap of the loaded dictionary, for
    both flows, and the first gap does not look at the fields after it. *)
Lemma resume_is_first_gap_of_loaded_data :
  (∀ pid projects funcs tabs filters adds,
     let st := RequirementsChat.initializeChat pid projects funcs tabs filters adds in
     step st = first_gap functional_fields SAdditional (data st)) ∧
  (∀ pid designs,
     let st := DesignRequirementsChat.initializeChat pid designs in
     step st = first_gap design_fields SComplete (data st)) ∧
  (∀ (pre : flow) s filled (post : flow) terminal d,
     all_filled pre d → filled d = false →
     first_gap (pre ++ (s, filled) :: post) terminal d = s).
Proof.
  split_and!.
  - intros. apply functional_resume.
  - intros. apply design_resume.
  - intros. by apply first_gap_skips.
Qed.

(** The metrics are filled and the description is not: the functional flow
    asks for the description again. *)
Example description_is_asked_again :
  let d : gmap string jsval :=
    <["metrics" := VList ["Revenue"]]> (<["name" := VStr "Sales"]> ∅) in
  RequirementsChat.determineNextStep d = SDescription.
Proof. reflexivity. Qed.

Lemma join_nonempty (names : list string) :
  names ≠ [] → Forall (λ n, n ≠ EmptyString) names → nonempty (join ", " names) = true.
Proof.
  intros Hne Hall. destruct names as [|n names]; [done|].
  apply Forall_cons in Hall as [Hn _].
  destruct n as [|c n]; [done|]. by destruct names.
Qed.

(** What the functional flow loads for the tabs: the project's tabs, when
    it has one and no tab name is empty. *)
Lemma functional_loaded_tabs pid projects funcs tabs filters adds :
  Forall (λ r, tab_name r ≠ EmptyString) tabs →
  let d := RequirementsChat.loadExistingRequirements pid projects funcs tabs filters adds in
  truthy (d !! "tabs") = bool_decide (filter (λ r, tab_project_id r = pid) tabs ≠ []).
Proof.
  intros Hnames d. subst d. unfold RequirementsChat.loadExistingRequirements.
  lookup_loaded.
  set (rows := filter (λ r, tab_project_id r = pid) tabs).
  pose proof (merge_sort_Permutation RequirementsChat.by_order_index rows) as Hperm.
  assert (merge_sort RequirementsChat.by_order_index rows ≠ [] ↔ rows ≠ []) as Hiff.
  { split; intros Hne Heq; apply Hne.
    - by rewrite Heq.
    - rewrite Heq in Hperm. by apply Permutation_nil. }
  destruct (decide (rows = [])) as [Hrows|Hrows].
  - rewrite (bool_decide_eq_false_2 (rows ≠ [])) by tauto.
    rewrite (bool_decide_eq_false_2 (merge_sort _ rows ≠ [])) by tauto.
    cbv iota.
    destruct (maybeSingle (filter (λ r, p_id r = pid) projects)) as [p|];
      [destruct (p_has_appendix_tab p), (p_has_metric_logic_tab p)|];
      destruct (maybeSingle (filter (λ r, fr_project_id r = pid) funcs));
      by lookup_loaded.
  - rewrite (bool_decide_eq_true_2 (rows ≠ [])) by done.
    rewrite (bool_decide_eq_true_2 (merge_sort _ rows ≠ [])) by tauto.
    simpl. apply join_nonempty.
    + intros Heq. apply fmap_nil_inv in Heq. tauto.
    + apply Forall_fmap, Forall_forall. intros r Hr. simpl.
      rewrite Hperm in Hr. apply list_elem_of_filter in Hr as [_ Hr].
      rewrite Forall_forall in Hnames. by apply Hnames.
Qed.

(** Where the claim holds. The step on re-opening the functional flow is the
    first empty field of the project's persisted record when no tab name is
    empty and the filters table holds a global filter exactly when the
    project has one of its own; for the design flow, when a logo placement
    is only held together with a logo URL. *)
Lemma resume_at_first_gap_of_record :
  (∀ pid projects funcs tabs filters adds p,
     maybeSingle (filter (λ r, p_id r = pid) projects) = Some p →
     Forall (λ r, tab_name r ≠ EmptyString) tabs →
     (filter (λ r, f_tab_id r = None) filters ≠ [] ↔ global_filters pid filters ≠ []) →
     step (RequirementsChat.initializeChat pid projects funcs tabs filters adds)
     = first_empty
         (functional_record p (maybeSingle (filter (λ r, fr_project_id r = pid) funcs))
            tabs filters) SAdditional) ∧
  (∀ pid designs row,
     maybeSingle (filter (λ r, dr_project_id r = pid) designs) = Some row →
     (text_filled (dr_logo_location row) = true → text_filled (dr_logo_url row) = true) →
     step (DesignRequirementsChat.initializeChat pid designs)
     = first_empty (design_record row) SComplete).
Proof.
  split.
  - intros pid projects funcs tabs filters adds p Hp Hnames Hfilters.
    assert (p_id p = pid) as Hid.
    { apply maybeSingle_Some in Hp.
      assert (p ∈ filter (λ r, p_id r = pid) projects) as Hin by (rewrite Hp; by left).
      by apply list_elem_of_filter in Hin as [? _]. }
    unfold RequirementsChat.initializeChat. cbn [step].
    unfold RequirementsChat.determineNextStep, functional_record. cbn [first_empty].
    destruct (functional_loaded_fields pid projects funcs tabs filters adds p Hp)
      as (-> & -> & -> & -> & -> & -> & -> & ->).
    rewrite (functional_loaded_tabs pid projects funcs tabs filters adds Hnames).
    rewrite Hid.
    rewrite (bool_decide_ext _ _ Hfilters).
    destruct (nonempty (p_name p)); [|done].
    destruct (nonempty (p_description p)); [|done].
    destruct (nonempty (p_audience p)); [|done].
    destruct (array_filled _); [|done].
    destruct (array_filled _); [|done].
    destruct (bool_decide (filter _ tabs ≠ [])); [|done].
    destruct (bool_decide (global_filters pid filters ≠ [])); [|done].
    cbn [negb].
    destruct (p_has_appendix_tab p); [|done].
    destruct (p_has_metric_logic_tab p); done.
  - intros pid designs row Hrow Hlogo.
    unfold DesignRequirementsChat.initializeChat. cbn [step].
    unfold DesignRequirementsChat.determineNextStep, design_record. cbn [first_empty].
    destruct (design_loaded_fields pid designs row Hrow) as (-> & -> & -> & -> & ->).
    destruct (text_filled (dr_dashboard_size row)); [|done].
    destruct (array_filled (dr_color_palette row)); [|done].
    destruct (array_filled (dr_fonts row)); [|done].
    cbn [negb].
    destruct (text_filled (dr_logo_location row)).
    + rewrite Hlogo by done. cbn [negb orb].
      by destruct (text_filled (dr_additional_requirements row)).
    + rewrite orb_false_r.
      destruct (text_filled (dr_logo_url row)); [|done]. cbn [negb].
      by destruct (text_filled (dr_additional_requirements row)).
Qed.

(** C1. Re-opening a flow does not always resume at the first empty field
    of the project's persisted record. Project 1 has answered everything up
    to the tabs and has no filter of its own, and project 2 has a global
    filter: the functional flow of project 1 resumes at appendix, past the
    filters that its record lacks. The design row of project 1 holds the
    answer of the logo step in [logo_location]: the design flow resumes at
    logo, not at additional, the first field that is empty. *)
Theorem C1_resume_misses_the_first_gap :
  step (RequirementsChat.initializeChat 1
          [Examples.project_asked_tabs] [Examples.functional_asked_tabs]
          [Examples.tab_overview] [Examples.filter_region] [])
    = SAppendix ∧
  first_empty
    (functional_record Examples.project_asked_tabs (Some Examples.functional_asked_tabs)
       [Examples.tab_overview] [Examples.filter_region]) SAdditional
    = SFilters ∧
  step (DesignRequirementsChat.initializeChat 1 [Examples.design_logo_answered])
    = SLogo ∧
  first_empty (design_record Examples.design_logo_answered) SComplete = SAdditional.
Proof. vm_compute. done. Qed.

End Resume.

(** ** Enhancements *)

Section Enhancement.
Import ProjectEditor Lifecycle Examples.

Global Instance version_desc_total : Total version_desc.
Proof. intros a b. unfold version_desc. lia. Qed.

Global Instance version_desc_trans : Transitive version_desc.
Proof. intros a b c. unfold version_desc. lia. Qed.

(** The first row of the descending sort carries the largest version. *)
Lemma latest_row_is_max (rows : list ProjectRow) :
  match head (merge_sort version_desc rows) with
  | Some top => top ∈ rows ∧ ∀ r, r ∈ rows → p_version_number r ≤ p_version_number top
  | None => rows = []
  end.
Proof.
  pose proof (merge_sort_Permutation version_desc rows) as Hperm.
  pose proof (StronglySorted_merge_sort version_desc rows) as Hsorted.
  destruct (merge_sort version_desc rows) as [|top rest]; simpl.
  - by apply Permutation_nil.
  - split.
    + rewrite <- Hperm. by left.
    + intros r Hr. rewrite <- Hperm in Hr.
      apply StronglySorted_inv in Hsorted as [_ Hall].
      apply elem_of_cons in Hr as [->|Hr]; [done|].
      rewrite Forall_forall in Hall. by apply Hall.
Qed.

Lemma maybeSingle_take_1 {A} (l : list A) : maybeSingle (take 1 l) = head l.
Proof. by destruct l. Qed.

(** The latest version is the largest of the tree, for a project whose row
    is in the table. *)
Lemma getLatestVersion_is_max (cur : ProjectRow) (projects : list ProjectRow) :
  persisted cur projects →
  (∀ r, r ∈ projects → in_tree (rootId cur) r → 1 ≤ p_version_number r) →
  let m := getLatestVersion (Some cur) projects in
  (∃ r, r ∈ projects ∧ in_tree (rootId cur) r ∧ p_version_number r = m) ∧
  (∀ r, r ∈ projects → in_tree (rootId cur) r → p_version_number r ≤ m).
Proof.
  intros (r0 & Hr0 & Hid & Hpar) Hpos. simpl. rewrite maybeSingle_take_1.
  pose proof (latest_row_is_max (filter (in_tree (rootId cur)) projects)) as Hmax.
  assert (r0 ∈ filter (in_tree (rootId cur)) projects) as Hin.
  { apply list_elem_of_filter. split; [|done].
    unfold in_tree, rootId. destruct (p_parent_project_id cur); simpl; auto. }
  destruct (head _) as [top|]; [|by rewrite Hmax in Hin; inversion Hin].
  destruct Hmax as [Htop Hle].
  apply list_elem_of_filter in Htop as [Htree Htop].
  destruct (decide (p_version_number top = 0)) as [Hz|_].
  { specialize (Hpos top Htop Htree). lia. }
  split; [eauto|].
  intros r Hr Hrt. apply Hle. by apply list_elem_of_filter.
Qed.

(** C2. Creating an enhancement from the project that the editor shows, when
    that project has its row in the table (a row with its id and its parent;
    the copy in the editor may lag in other columns, as it does after Mark
    as Done) and every version of its tree is numbered from 1, appends one
    project row: its [version_number] is one more than the largest
    [version_number] among the root (the current project's
    [parent_project_id], or its own id when that is null) and the projects
    whose [parent_project_id] is that root; its [parent_project_id] is that
    root; its name is the current name followed by [" - Enhancement v"] and
    the new version; and one ['version'] row of change history is appended
    for the new project. *)
Theorem C2_create_enhancement (w : World) (cur : ProjectRow) (u new_id : uuid) :
  project (editor w) = Some cur →
  user (editor w) = Some u →
  persisted cur (projects w) →
  (∀ r, r ∈ projects w →
        p_id r = rootId cur ∨ p_parent_project_id r = Some (rootId cur) →
        1 ≤ p_version_number r) →
  rootId cur = match p_parent_project_id cur with Some r => r | None => p_id cur end ∧
  ∃ m e,
    (∃ r, r ∈ projects w ∧
          (p_id r = rootId cur ∨ p_parent_project_id r = Some (rootId cur)) ∧
          p_version_number r = m) ∧
    (∀ r, r ∈ projects w →
          p_id r = rootId cur ∨ p_parent_project_id r = Some (rootId cur) →
          p_version_number r ≤ m) ∧
    projects (createEnhancement new_id w) = projects w ++ [e] ∧
    p_id e = new_id ∧
    p_version_number e = m + 1 ∧
    p_parent_project_id e = Some (rootId cur) ∧
    p_name e = p_name cur +:+ " - Enhancement v" +:+ pretty (m + 1) ∧
    p_status e = "draft" ∧
    project (editor (createEnhancement new_id w)) = Some e ∧
    change_history (createEnhancement new_id w) =
      change_history w ++
      [{| ch_project_id := new_id; ch_changed_by := u; ch_change_type := "version";
          ch_change_description := "Created enhancement version " +:+ pretty (m + 1) |}].
Proof.
  intros Hp Hu Hcur Hpos. split; [by unfold rootId; destruct (p_parent_project_id cur)|].
  destruct (getLatestVersion_is_max cur (projects w) Hcur Hpos) as [Hex Hle].
  exists (getLatestVersion (Some cur) (projects w)),
         (enhancementProject new_id cur u (getLatestVersion (Some cur) (projects w) + 1)).
  unfold createEnhancement. rewrite Hp, Hu.
  split_and!; done.
Qed.

(** R is version 1 and its enhancement E1, a draft, is version 2. E1 is
    marked done in the editor, and the enhancement then made from it is
    version 3 and hangs under R. *)
Lemma C2_create_enhancement_witness :
  ∃ e, projects (createEnhancement 12 (markAsDone world_R_E1_draft))
         = projects (markAsDone world_R_E1_draft) ++ [e] ∧
       p_version_number e = 3 ∧ p_parent_project_id e = Some 10%nat ∧
       p_name e = "Sales - Enhancement v2 - Enhancement v3".
Proof.
  destruct (C2_create_enhancement (markAsDone world_R_E1_draft)
              (with_status "done" project_E1_draft) 1%nat 12%nat)
    as (_ & m & e & (r & Hr & _ & Hrm) & Hle & Hins & _ & Hv & Hpar & Hname & _).
  - reflexivity.
  - reflexivity.
  - exists (set_status "done" 1%nat project_E1_draft). split_and!; [|done|done].
    simpl. apply list_elem_of_In. simpl. auto.
  - intros r Hr _. apply list_elem_of_In in Hr. simpl in Hr.
    destruct Hr as [<-|[<-|[]]]; simpl; lia.
  - assert (m = 2) as ->.
    { apply Z.le_antisymm.
      - subst m. apply list_elem_of_In in Hr. simpl in Hr.
        destruct Hr as [<-|[<-|[]]]; simpl; lia.
      - apply (Hle (set_status "done" 1%nat project_E1_draft)).
        + simpl. apply list_elem_of_In. simpl. auto.
        + simpl. auto. }
    exists e. split_and!; done.
Defined.

Lemma reachable_dialog_only_when_done w : reachable w → dialog_only_when_done w.
Proof.
  induction 1 as [w Hclosed|e w _ IH]; unfold dialog_only_when_done in *.
  { by rewrite Hclosed. }
  unfold handle. destruct (project (editor w)) as [p|] eqn:Hp; [|by rewrite Hp].
  assert (showEnhancementDialog (editor w) = true →
          ∃ p0, project (editor w) = Some p0 ∧ p_status p0 = "done") as Hsame.
  { by rewrite Hp. }
  destruct e as [| | |new_id].
  - case_bool_decide as Hs; [done|].
    unfold markAsDone. rewrite Hp.
    destruct (user (editor w)); simpl; [eauto | done].
  - case_bool_decide as Hs; [done|].
    simpl. intros _. exists p. split; [done|].
    by destruct (decide (p_status p = "done")).
  - destruct (showEnhancementDialog (editor w)) eqn:Hshow; simpl; [done|].
    by rewrite Hshow.
  - destruct (showEnhancementDialog (editor w)) eqn:Hshow; [|by rewrite Hshow].
    unfold createEnhancement. rewrite Hp.
    destruct (user (editor w)); simpl; [done|]. by rewrite Hshow.
Qed.

(** C6. From a project that is not done, and a draft in particular, no
    enhancement can be created: in every state the editor can reach, the
    Create Enhancement button is disabled and does nothing, and the dialog's
    Create button is not there to be clicked, so both clicks leave the
    editor and the tables as they are. *)
Theorem C6_enhancement_needs_done (w : World) (p : ProjectRow) :
  reachable w →
  project (editor w) = Some p →
  p_status p ≠ "done" →
  handle ClickCreateEnhancement w = w ∧
  ∀ new_id, handle (ClickDialogCreate new_id) w = w.
Proof.
  intros Hreach Hp Hdraft. unfold handle. rewrite Hp. split.
  - by rewrite bool_decide_true.
  - intros new_id.
    destruct (showEnhancementDialog (editor w)) eqn:Hshow; [|done].
    destruct (reachable_dialog_only_when_done w Hreach Hshow) as (p' & Hp' & Hdone).
    congruence.
Qed.

Lemma C6_enhancement_needs_done_witness :
  handle ClickCreateEnhancement (handle ClickDialogCancel world_draft)
    = handle ClickDialogCancel world_draft ∧
  ∀ new_id, handle (ClickDialogCreate new_id) (handle ClickDialogCancel world_draft)
    = handle ClickDialogCancel world_draft.
Proof.
  apply (C6_enhancement_needs_done (handle ClickDialogCancel world_draft)
           project_draft).
  - apply reachable_handle, reachable_mount. reflexivity.
  - reflexivity.
  - simpl. discriminate.
Defined.

(** [createEnhancement] itself does not look at the status: the guard is the
    disabled button. *)
Lemma createEnhancement_reads_no_status :
  length (projects (createEnhancement 12 world_draft)) = 2%nat.
Proof. reflexivity. Qed.

End Enhancement.

(** ** The Change Interpreter *)

Section ChangeInterpreter.
Import JS Spec RequirementsChat.

Lemma handleChangeRequest_step userInput d :
  step (newState (handleChangeRequest userInput d)) = SAdditional.
Proof.
  unfold handleChangeRequest.
  repeat (destruct (_ && _); [reflexivity|]). reflexivity.
Qed.

Lemma handleChangeRequest_interpret userInput d :
  data (newState (handleChangeRequest userInput d)) = interpret userInput d.
Proof.
  unfold handleChangeRequest, interpret, field_rules, first_match, applies; simpl.
  repeat (destruct (_ && _); [reflexivity|]). reflexivity.
Qed.

Lemma interpret_one_key userInput (d : gmap string jsval) :
  interpret userInput d = d ∨ ∃ k v, interpret userInput d = <[k := v]> d.
Proof.
  unfold interpret. destruct (first_match _ _); eauto.
Qed.

Example metrics_command_value :
  extractValue "change metrics to Revenue, Profit" re_metrics = "Revenue, Profit".
Proof. vm_compute. reflexivity. Qed.

Example metrics_command_rule :
  key <$> first_match "change metrics to Revenue, Profit" field_rules = Some "metrics".
Proof. vm_compute. reflexivity. Qed.

(** The keyword that comes first in the priority order wins wherever it
    stands in the message: here the name is rewritten, not the metrics. *)
Example name_wins_over_metrics :
  key <$> first_match "change metrics to Revenue, Name count" field_rules = Some "name".
Proof. vm_compute. reflexivity. Qed.

Lemma handleChangeRequest_effects userInput d :
  effects (handleChangeRequest userInput d) = interpret_writes userInput.
Proof.
  unfold handleChangeRequest, interpret_writes, field_rules, first_match, applies; simpl.
  repeat (destruct (_ && _); [reflexivity|]). reflexivity.
Qed.

(** C5. An edit command is handled by the first field, in the order name,
    description, audience, data source(s), metric(s), tab(s), filter(s),
    whose keyword occurs in the message and for which a value that is not
    empty is extracted: the data after [handleChangeRequest] is the data
    before with that one field written, the writes to the store are the
    writes of that one field, any two keys whose values changed are the same
    key, and the step stays at additional; when no field applies nothing is
    changed and nothing is written. The message
    ["change metrics to Revenue, Profit"] writes ["Revenue"; "Profit"] to
    metrics, in the data and by one upsert of the metrics column, and
    leaves every other key as it was. *)
Theorem C5_first_match_only userInput (d : gmap string jsval) :
  let r := handleChangeRequest userInput d in
  let d' := data (newState r) in
  step (newState r) = SAdditional ∧
  d' = interpret userInput d ∧
  effects r = interpret_writes userInput ∧
  (∀ k1 k2, d' !! k1 ≠ d !! k1 → d' !! k2 ≠ d !! k2 → k1 = k2) ∧
  (first_match userInput field_rules = None → d' = d ∧ effects r = []) ∧
  handleChangeRequest "change metrics to Revenue, Profit" d
    = changed (<["metrics" := VList ["Revenue"; "Profit"]]> d)
        [SaveFunctionalRequirements [("metrics", VList ["Revenue"; "Profit"])]] ∧
  (∀ k, k ≠ "metrics" →
     data (newState (handleChangeRequest "change metrics to Revenue, Profit" d)) !! k
       = d !! k).
Proof.
  assert (handleChangeRequest "change metrics to Revenue, Profit" d
          = changed (<["metrics" := VList ["Revenue"; "Profit"]]> d)
              [SaveFunctionalRequirements [("metrics", VList ["Revenue"; "Profit"])]])
    as Hex.
  { unfold handleChangeRequest.
    repeat match goal with
    | |- context [if ?c then _ else _] =>
        let b := eval vm_compute in c in
        change c with b; cbv iota
    end.
    cbv zeta. unfold changed. do 3 f_equal; vm_compute; reflexivity. }
  intros r d'. subst r d'. split_and!.
  - apply handleChangeRequest_step.
  - apply handleChangeRequest_interpret.
  - apply handleChangeRequest_effects.
  - rewrite handleChangeRequest_interpret. intros k1 k2 H1 H2.
    destruct (interpret_one_key userInput d) as [Heq|(k & v & Heq)];
      rewrite Heq in H1, H2; [done|].
    destruct (decide (k = k1)) as [<-|Hk1]; [|by rewrite lookup_insert_ne in H1].
    destruct (decide (k = k2)) as [<-|Hk2]; [done|by rewrite lookup_insert_ne in H2].
  - intros Hnone.
    rewrite handleChangeRequest_interpret, handleChangeRequest_effects.
    unfold interpret, interpret_writes. by rewrite Hnone.
  - exact Hex.
  - intros k Hk. rewrite Hex. simpl. by rewrite lookup_insert_ne.
Qed.

End ChangeInterpreter.

(** ** Splitting and trimming *)

Section Strings.
Import JS Spec.

Lemma split_not_nil sep s : split sep s ≠ [].
Proof.
  destruct s as [|c s]; simpl; [done|].
  destruct (decide (c = sep)); [done|]. by destruct (split sep s).
Qed.

Lemma join_cons_char sep c t ts :
  join sep (String c t :: ts) = String c (join sep (t :: ts)).
Proof. by destruct ts. Qed.

(** Joining the tokens with the separator gives the input back. *)
Lemma join_split sep s : join (String sep EmptyString) (split sep s) = s.
Proof.
  induction s as [|c s IH]; simpl; [done|].
  destruct (decide (c = sep)) as [->|Hne].
  - pose proof (split_not_nil sep s) as Hnil.
    destruct (split sep s) as [|t ts]; [done|].
    change (join (String sep "") ("" :: t :: ts))
      with (String sep (join (String sep "") (t :: ts))).
    by rewrite IH.
  - destruct (split sep s) as [|t ts] eqn:Hs; [by apply split_not_nil in Hs|].
    rewrite join_cons_char. by rewrite IH.
Qed.

(** No token holds the separator. *)
Lemma split_free_of sep s : Forall (free_of sep) (split sep s).
Proof.
  induction s as [|c s IH]; simpl; [by repeat constructor|].
  destruct (decide (c = sep)) as [->|Hne].
  - by constructor.
  - destruct (split sep s) as [|t ts]; [by repeat constructor|].
    apply Forall_cons in IH as [Ht Hts]. by constructor.
Qed.

(** An input with no separator is one token. *)
Lemma split_free sep s : free_of sep s → split sep s = [s].
Proof.
  induction s as [|c s IH]; simpl; [done|]. intros [Hne Hfree].
  destruct (decide (c = sep)); [done|]. by rewrite IH.
Qed.

Lemma trimStart_spec s :
  ∃ l, s = l +:+ trimStart s ∧ blank l ∧ ¬ starts_with_space (trimStart s).
Proof.
  induction s as [|c s (l & Hs & Hl & Hns)]; simpl.
  - exists EmptyString. split_and!; [reflexivity | exact I | tauto].
  - destruct (JS.is_white_space c) eqn:Hc.
    + exists (String c l). split_and!; [|done|done].
      change (String c s = String c (l +:+ trimStart s)). by rewrite <- Hs.
    + exists EmptyString. split_and!; [reflexivity | exact I |]. simpl. by rewrite Hc.
Qed.

Lemma trimEnd_spec s :
  ∃ r, s = trimEnd s +:+ r ∧ blank r ∧ ¬ ends_with_space (trimEnd s).
Proof.
  induction s as [|c s (r & Hs & Hr & Hne)]; simpl.
  - exists EmptyString. split_and!; [reflexivity | exact I | tauto].
  - destruct (trimEnd s) as [|c' t] eqn:Ht.
    + destruct (JS.is_white_space c) eqn:Hc.
      * exists (String c r). split_and!; [|done|tauto].
        change ("" +:+ String c r) with (String c ("" +:+ r)). by rewrite <- Hs.
      * exists r. split_and!; [|done|].
        -- change (String c "" +:+ r) with (String c ("" +:+ r)). by rewrite <- Hs.
        -- simpl. by rewrite Hc.
    + exists r. split_and!; [|done|done].
      change (String c (String c' t) +:+ r) with (String c (String c' t +:+ r)).
      by rewrite <- Hs.
Qed.

Lemma trimEnd_keeps_start s :
  ¬ starts_with_space s → ¬ starts_with_space (trimEnd s).
Proof.
  destruct s as [|c s]; simpl; [done|]. intros Hc.
  destruct (trimEnd s); [|done].
  destruct (JS.is_white_space c) eqn:Hsp; [done|]. simpl. by rewrite Hsp.
Qed.

(** [trim] cuts white space off both ends, and only that. *)
Lemma trim_spec s :
  ∃ l r, s = l +:+ trim s +:+ r ∧ blank l ∧ blank r ∧
         ¬ starts_with_space (trim s) ∧ ¬ ends_with_space (trim s).
Proof.
  destruct (trimStart_spec s) as (l & Hl & Hbl & Hstart).
  destruct (trimEnd_spec (trimStart s)) as (r & Hr & Hbr & Hend).
  exists l, r. unfold trim. split_and!; [|done|done| |done].
  - by rewrite <- Hr.
  - by apply trimEnd_keeps_start.
Qed.

Lemma nonempty_true s : nonempty s = true ↔ s ≠ EmptyString.
Proof. by destruct s. Qed.

(** The design flow parses its lists the way the specification words it. *)
Lemma split_trim_filter_parseList userInput :
  DesignRequirementsChat.split_trim_filter userInput = parseList userInput.
Proof.
  unfold DesignRequirementsChat.split_trim_filter, parseList.
  induction (map trim (split "," userInput)) as [|t ts IH]; [done|].
  rewrite !filter_cons, IH.
  destruct t; simpl; by repeat case_decide.
Qed.

End Strings.

(** ** Answers that are lists *)

Section Lists.
Import JS Spec Examples.

(** C4. At the data_sources and metrics steps the answer is split on [,]
    and each token is trimmed, and the empty tokens stay: [" a , b ,,c"] is
    stored as ["a"; "b"; ""; "c"], where the rule of the specification gives
    ["a"; "b"; "c"]. At the color_palette and fonts steps the empty tokens
    are dropped and the rule is met. *)
Theorem C4_functional_lists_keep_empty_tokens :
  parseList " a , b ,,c" = ["a"; "b"; "c"] ∧
  data (newState (RequirementsChat.generateResponse " a , b ,,c"
                    {| step := SDataSources; data := ∅ |}).1) !! "data_sources"
    = Some (VList ["a"; "b"; ""; "c"]) ∧
  data (newState (RequirementsChat.generateResponse " a , b ,,c"
                    {| step := SMetrics; data := ∅ |}).1) !! "metrics"
    = Some (VList ["a"; "b"; ""; "c"]) ∧
  data (DesignRequirementsChat.processUserInput 1 " a , b ,,c"
          {| step := SColorPalette; data := ∅ |} []).1 !! "color_palette"
    = Some (VList ["a"; "b"; "c"]) ∧
  data (DesignRequirementsChat.processUserInput 1 " a , b ,,c"
          {| step := SFonts; data := ∅ |} []).1 !! "fonts"
    = Some (VList ["a"; "b"; "c"]).
Proof. split_and!; vm_compute; reflexivity. Qed.

(** What the four steps store, for every answer. *)
Lemma list_steps_parse userInput (d : gmap string jsval) tbl :
  data (newState (RequirementsChat.generateResponse userInput
                    {| step := SDataSources; data := d |}).1) !! "data_sources"
    = Some (VList (map trim (split "," userInput))) ∧
  data (newState (RequirementsChat.generateResponse userInput
                    {| step := SMetrics; data := d |}).1) !! "metrics"
    = Some (VList (map trim (split "," userInput))) ∧
  data (DesignRequirementsChat.processUserInput 1 userInput
          {| step := SColorPalette; data := d |} tbl).1 !! "color_palette"
    = Some (VList (parseList userInput)) ∧
  data (DesignRequirementsChat.processUserInput 1 userInput
          {| step := SFonts; data := d |} tbl).1 !! "fonts"
    = Some (VList (parseList userInput)).
Proof.
  simpl. rewrite !lookup_insert_eq, split_trim_filter_parseList. done.
Qed.

(** Whatever the table holds, [saveFilters] leaves no row without a tab
    but the rows it inserts, and those carry no project. *)
Lemma saveFilters_rows projectId filterNames tbl r :
  r ∈ RequirementsChat.saveFilters projectId filterNames tbl →
  f_tab_id r = None →
  f_project_id r = None ∧ f_name r ∈ filterNames.
Proof.
  unfold RequirementsChat.saveFilters. intros Hr Htab.
  assert (r ∈ filter (λ r, f_tab_id r ≠ None) tbl ∨
          r ∈ map (λ name, {| f_project_id := None; f_tab_id := None; f_name := name;
                              f_data_source := ""; f_multi_select := false |}) filterNames)
    as [Hold|Hnew].
  { case_bool_decide; [|by left]. by apply elem_of_app in Hr. }
  - apply list_elem_of_filter in Hold as [Hne _]. done.
  - apply list_elem_of_fmap in Hnew as (name & -> & Hname). done.
Qed.

(** C7. Project 1 answers the filters step with ["Date"] while project 2
    holds the global filter Region: the delete removes Region, and the row
    written for Date belongs to no project, so it is not among the global
    filters of project 1. *)
Theorem C7_saveFilters_is_not_scoped :
  RequirementsChat.saveFilters 1 ["Date"] [filter_region] = [filter_date] ∧
  global_filters 2 [filter_region] = [filter_region] ∧
  global_filters 2 (RequirementsChat.saveFilters 1 ["Date"] [filter_region]) = [] ∧
  global_filters 1 (RequirementsChat.saveFilters 1 ["Date"] [filter_region]) = [] ∧
  f_project_id filter_date = None.
Proof. split_and!; vm_compute; reflexivity. Qed.

End Lists.

(** ** The design flow *)

Section Design.
Import JS Spec Examples DesignRequirementsChat.

(** In the design flow the step held is always the one computed from the data. *)
Lemma processUserInput_step projectId userInput st tbl :
  step st = determineNextStep (data st) →
  step (processUserInput projectId userInput st tbl).1
    = determineNextStep (data (processUserInput projectId userInput st tbl).1).
Proof.
  intros Hst. unfold processUserInput.
  destruct (step st) eqn:Hs; simpl; rewrite ?Hs; try done.
  by destruct (_ || _).
Qed.

(** Once the flow is at the logo step it stays there, whatever is answered. *)
Lemma logo_step_repeats projectId userInput st tbl :
  step st = SLogo →
  determineNextStep (data st) = SLogo →
  step (processUserInput projectId userInput st tbl).1 = SLogo.
Proof.
  intros Hstep Hnext. unfold processUserInput. rewrite Hstep.
  unfold determineNextStep in Hnext.
  destruct (truthy (data st !! "dashboard_size")) eqn:H1; [|done].
  destruct (truthy (data st !! "color_palette")) eqn:H2; [|done].
  destruct (truthy (data st !! "fonts")) eqn:H3; [|done].
  destruct (truthy (data st !! "logo_url")) eqn:H4;
    [by destruct (truthy (data st !! "additional_requirements"))|].
  destruct (_ || _); simpl; unfold determineNextStep;
    rewrite ?lookup_insert_eq, ?(lookup_insert_ne _ "logo_location"),
      ?(lookup_insert_ne _ "logo_url") by done;
    rewrite ?lookup_insert_eq, ?H1, ?H2, ?H3, ?H4; done.
Qed.

(** C8. The design chat is at the logo step with size, palette and fonts
    answered. Whether the answer names a placement or says none, the next
    step is logo again and not additional: the answer is stored in
    [logo_location], and the next step is computed from [logo_url]. *)
Theorem C8_logo_step_does_not_advance :
  determineNextStep (data at_logo) = SLogo ∧
  step (processUserInput 1 "top left" at_logo []).1 = SLogo ∧
  data (processUserInput 1 "top left" at_logo []).1 !! "logo_location"
    = Some (VStr "top left") ∧
  step (processUserInput 1 "none" at_logo []).1 = SLogo ∧
  data (processUserInput 1 "none" at_logo []).1 !! "logo_location"
    = Some (VStr "none").
Proof. split_and!; vm_compute; reflexivity. Qed.

(** The steps before the logo do follow the order of the flow. *)
Lemma design_steps_before_logo projectId userInput tbl :
  userInput ≠ EmptyString →
  step (processUserInput projectId userInput
          {| step := SDashboardSize; data := ∅ |} tbl).1 = SColorPalette ∧
  step (processUserInput projectId userInput
          {| step := SColorPalette;
             data := <["dashboard_size" := VStr "1920x1080"]> ∅ |} tbl).1 = SFonts ∧
  step (processUserInput projectId userInput
          {| step := SFonts;
             data := <["color_palette" := VList ["blue"]]>
                       (<["dashboard_size" := VStr "1920x1080"]> ∅) |} tbl).1 = SLogo.
Proof.
  intros Hne. split_and!; simpl; unfold determineNextStep.
  - rewrite lookup_insert_eq. simpl. destruct userInput; [done|]. reflexivity.
  - reflexivity.
  - reflexivity.
Qed.

End Design.

(** ** Tabs and filters *)

Section TabsAndFilters.
Import JS Spec RequirementsChat.

Lemma mapi_from_length {A B} (f : A → Z → B) i l : length (mapi_from f i l) = length l.
Proof. revert i. induction l as [|x l IH]; intros i; simpl; [done|]. by rewrite IH. Qed.

Lemma mapi_from_tabs projectId i names :
  let rows := mapi_from (λ name index,
                {| tab_project_id := projectId; tab_name := name;
                   tab_order_index := index |}) i names in
  map tab_name rows = names ∧
  map tab_order_index rows = map (λ k, i + Z.of_nat k) (seq 0 (length names)) ∧
  Forall (λ r, tab_project_id r = projectId) rows.
Proof.
  revert i. induction names as [|name names IH]; intros i; simpl; [done|].
  destruct (IH (i + 1)) as (Hn & Ho & Hp). split_and!.
  - by rewrite Hn.
  - f_equal; [lia|]. rewrite Ho, <- seq_shift, map_map.
    apply map_ext. intros k. lia.
  - by constructor.
Qed.

Lemma filter_none {A} (P : A → Prop) `{∀ x, Decision (P x)} (l : list A) :
  Forall (λ x, ¬ P x) l → filter P l = [].
Proof.
  induction 1 as [|x l Hx _ IH]; [done|].
  by rewrite filter_cons_False.
Qed.

Lemma filter_all {A} (P : A → Prop) `{∀ x, Decision (P x)} (l : list A) :
  Forall P l → filter P l = l.
Proof.
  induction 1 as [|x l Hx _ IH]; [done|].
  rewrite filter_cons_True by done. by rewrite IH.
Qed.

(** After [saveTabs] the project's tabs are the rows just inserted. *)
Lemma saveTabs_project_rows projectId tabsInput tbl :
  filter (λ r, tab_project_id r = projectId) (saveTabs projectId tabsInput tbl)
    = mapi (λ name index,
              {| tab_project_id := projectId; tab_name := name; tab_order_index := index |})
           (tabNames tabsInput).
Proof.
  unfold saveTabs. rewrite filter_app.
  rewrite (filter_none (λ r, tab_project_id r = projectId)).
  - simpl. apply filter_all. apply (mapi_from_tabs projectId 0).
  - apply Forall_forall. intros r Hr. by apply list_elem_of_filter in Hr as [Hne _].
Qed.

Lemma saveTabs_other_rows projectId tabsInput tbl :
  filter (λ r, tab_project_id r ≠ projectId) (saveTabs projectId tabsInput tbl)
    = filter (λ r, tab_project_id r ≠ projectId) tbl.
Proof.
  unfold saveTabs. rewrite filter_app.
  rewrite (filter_none (λ r, tab_project_id r ≠ projectId) (mapi _ _)).
  - rewrite app_nil_r. apply filter_all.
    apply Forall_forall. intros r Hr. by apply list_elem_of_filter in Hr as [Hne _].
  - eapply Forall_impl; [apply (mapi_from_tabs projectId 0)|]. simpl. tauto.
Qed.

(** C9 does not hold of an answer with white space around it: [" Overview "]
    has no [,] and reaches [saveTabs] as it was typed, and the one tab is
    named ["Overview"], which is not the entire answer. *)
Lemma C9_single_tab_is_trimmed :
  includes " Overview " "," = false ∧
  (handleSend {| input := " Overview "; isTyping := false;
                 conversationState := {| step := STabs; data := ∅ |} |}).2
    = [SaveTabs " Overview "] ∧
  map tab_name (saveTabs 1 " Overview " []) = ["Overview"] ∧
  map tab_name (saveTabs 1 " Overview " []) ≠ [" Overview "].
Proof.
  split_and!; [reflexivity | reflexivity | reflexivity |].
  vm_compute. discriminate.
Qed.

(** C9, as amended. At the tabs step the whole answer is kept as
    [data.tabs], the step moves to filters and the answer is handed to
    [saveTabs]. [saveTabs] replaces the project's tabs: when the answer holds
    a [,] their names are the answer split on [,] with each token trimmed,
    and otherwise there is one tab, named by the whole answer with the white
    space around it removed, a number included; their [order_index] values
    are 0, 1, ..., n-1 in the order of the answer; the tabs of the other
    projects stay. *)
Theorem C9_tabs userInput projectId (d : gmap string jsval) (tbl : list TabRow) :
  let rows := filter (λ r, tab_project_id r = projectId)
                (saveTabs projectId userInput tbl) in
  generateResponse userInput {| step := STabs; data := d |}
    = ({| newState := {| step := SFilters; data := <["tabs" := VStr userInput]> d |};
          effects := [SaveTabs userInput] |}, None) ∧
  (includes userInput "," = true → map tab_name rows = map trim (split "," userInput)) ∧
  (includes userInput "," = false → map tab_name rows = [trim userInput]) ∧
  map tab_order_index rows = map Z.of_nat (seq 0 (length rows)) ∧
  filter (λ r, tab_project_id r ≠ projectId) (saveTabs projectId userInput tbl)
    = filter (λ r, tab_project_id r ≠ projectId) tbl.
Proof.
  intros rows. subst rows. rewrite saveTabs_project_rows.
  destruct (mapi_from_tabs projectId 0 (tabNames userInput)) as (Hn & Ho & _).
  fold (mapi (λ name index,
          {| tab_project_id := projectId; tab_name := name; tab_order_index := index |})
          (tabNames userInput)) in Hn, Ho.
  split_and!.
  - reflexivity.
  - intros Hc. rewrite Hn. unfold tabNames. by rewrite Hc.
  - intros Hc. rewrite Hn. unfold tabNames. by rewrite Hc.
  - rewrite Ho. unfold mapi. rewrite mapi_from_length.
    apply map_ext. intros k. lia.
  - apply saveTabs_other_rows.
Qed.

(** A number is a tab name, not a count of tabs. *)
Example tabs_numeric :
  saveTabs 1 "3" [] = [{| tab_project_id := 1; tab_name := "3"; tab_order_index := 0 |}].
Proof. vm_compute. reflexivity. Qed.

Example tabs_listed :
  map tab_name (saveTabs 1 "Overview, Sales ,Detail" []) = ["Overview"; "Sales"; "Detail"] ∧
  map tab_order_index (saveTabs 1 "Overview, Sales ,Detail" []) = [0; 1; 2].
Proof. vm_compute. done. Qed.

(** C10. At the filters step an answer that is ["none"] in any case gives
    the empty list of filters, and any other answer is split on [,] with each
    token trimmed; either way the step moves on to appendix. An answer that
    is empty, or white space only, is not sent at all: [handleSend] leaves
    the conversation where it is. *)
Theorem C10_filters_none userInput (d : gmap string jsval) :
  let r := (generateResponse userInput {| step := SFilters; data := d |}).1 in
  step (newState r) = SAppendix ∧
  (toLowerCase userInput = "none" →
     data (newState r) !! "filters" = Some (VList []) ∧ effects r = [SaveFilters []]) ∧
  (toLowerCase userInput ≠ "none" →
     data (newState r) !! "filters" = Some (VList (map trim (split "," userInput))) ∧
     effects r = [SaveFilters (map trim (split "," userInput))]) ∧
  (∀ st, trim (input st) = EmptyString → handleSend st = (st, [])) ∧
  (∀ st, trim (input st) ≠ EmptyString → isTyping st = false →
         conversationState st = {| step := SFilters; data := d |} →
         input st = userInput →
         step (conversationState (handleSend st).1) = SAppendix).
Proof.
  intros r. subst r. simpl. split_and!.
  - reflexivity.
  - intros Hnone. rewrite lookup_insert_eq. by case_decide.
  - intros Hnone. rewrite lookup_insert_eq. by case_decide.
  - intros st Hempty. unfold handleSend. by rewrite Hempty.
  - intros st Hne Htyping Hcs Hin. unfold handleSend.
    rewrite Htyping, Hcs, Hin. subst userInput.
    destruct (trim (input st)); [done|]. reflexivity.
Qed.

Lemma C10_filters_none_witness :
  let r := (generateResponse "NoNe" {| step := SFilters; data := ∅ |}).1 in
  data (newState r) !! "filters" = Some (VList []) ∧ effects r = [SaveFilters []].
Proof.
  intros r.
  destruct (C10_filters_none "NoNe" ∅) as (_ & Hnone & _).
  apply Hnone. vm_compute. reflexivity.
Defined.

Example filters_listed :
  data (newState (generateResponse "Region, Date" {| step := SFilters; data := ∅ |}).1)
    !! "filters" = Some (VList ["Region"; "Date"]).
Proof. vm_compute. reflexivity. Qed.

Example filters_empty_not_sent :
  let st := {| input := "  "; isTyping := false;
               conversationState := {| step := SFilters; data := ∅ |} |} in
  handleSend st = (st, []).
Proof. vm_compute. reflexivity. Qed.

End TabsAndFilters.

(** ** The order of the tasks *)

Section Tasks.
Import JS Spec Examples TasksManager.

(** *** Reordering *)

Lemma splice_remove_perm {A} (l : list A) start x l' :
  splice_remove l start = (Some x, l') → l ≡ₚ x :: l'.
Proof.
  unfold splice_remove. intros [= Hx <-].
  rewrite <- (take_drop_middle l _ x Hx) at 1.
  by rewrite Permutation_middle.
Qed.

Lemma splice_remove_some {A} (l : list A) start :
  l ≠ [] → start < Z.of_nat (length l) → ∃ x, (splice_remove l start).1 = Some x.
Proof.
  intros Hl Hlt. unfold splice_remove. simpl.
  apply lookup_lt_is_Some. unfold splice_start.
  assert (0 < length l)%nat by (destruct l; [done | simpl; lia]).
  destruct (start <? 0) eqn:Hneg; lia.
Qed.

Lemma splice_insert_perm {A} (l : list A) start x :
  splice_insert l start x ≡ₚ x :: l.
Proof.
  unfold splice_insert. rewrite <- Permutation_middle.
  by rewrite take_drop.
Qed.

Lemma findIndex_from_lt {A} (P : A → bool) i l :
  0 ≤ i → l ≠ [] → findIndex_from P i l < i + Z.of_nat (length l).
Proof.
  revert i. induction l as [|x l IH]; intros i Hi Hl; [done|]. simpl.
  destruct (P x); [lia|].
  destruct l as [|y l]; [simpl; lia|].
  assert (findIndex_from P (i + 1) (y :: l) < i + 1 + Z.of_nat (length (y :: l))) as Hlt.
  { apply IH; [lia|done]. }
  rewrite (Nat2Z.inj_succ (length (y :: l))). lia.
Qed.

Lemma position_None x ids : x ∉ ids → position x ids = None.
Proof.
  induction ids as [|y ids IH]; simpl; [done|]. intros Hx.
  apply not_elem_of_cons in Hx as [Hne Hx].
  rewrite decide_False by done. by rewrite IH.
Qed.

Lemma position_is_Some x ids : x ∈ ids → is_Some (position x ids).
Proof.
  induction ids as [|y ids IH]; simpl; [by intros ?%elem_of_nil|]. intros Hx.
  destruct (decide (y = x)); [done|].
  apply elem_of_cons in Hx as [->|Hx]; [done|].
  destruct (IH Hx) as [i ->]. done.
Qed.

(** The updates of [handleDrop], one after the other, amount to one renumbering. *)
Lemma foldl_update_order_index (ts : list TaskRow) k tbl :
  NoDup (map t_id ts) →
  foldl update_order_index tbl (mapi_from (λ task idx, (t_id task, idx)) k ts)
    = map (renumber (map t_id ts) k) tbl.
Proof.
  revert k tbl. induction ts as [|t ts IH]; intros k tbl Hnd; simpl.
  - rewrite <- (map_id tbl) at 1. done.
  - apply NoDup_cons in Hnd as [Hfresh Hnd].
    rewrite IH by done. unfold update_order_index. rewrite map_map.
    apply map_ext. intros r. unfold renumber. simpl.
    destruct (decide (t_id r = t_id t)) as [Heq|Hne].
    + simpl. rewrite Heq, decide_True by done.
      rewrite position_None by done. by rewrite Z.add_0_r.
    + rewrite decide_False by done.
      destruct (position (t_id r) (map t_id ts)) as [i|]; simpl; [|done].
      f_equal. lia.
Qed.

Lemma renumber_project ids k t : t_project_id (renumber ids k t) = t_project_id t.
Proof. unfold renumber. by destruct (position _ _). Qed.

Lemma renumber_id ids k t : t_id (renumber ids k t) = t_id t.
Proof. unfold renumber. by destruct (position _ _). Qed.

Lemma project_tasks_renumber p ids k tbl :
  project_tasks p (map (renumber ids k) tbl) = map (renumber ids k) (project_tasks p tbl).
Proof.
  unfold project_tasks. induction tbl as [|t tbl IH]; simpl; [done|].
  rewrite !filter_cons, renumber_project, IH. by case_decide.
Qed.




(** *** Adding *)

Lemma foldl_max_ge (l : list Z) x : x ≤ foldl Z.max x l ∧ ∀ y, y ∈ l → y ≤ foldl Z.max x l.
Proof.
  revert x. induction l as [|z l IH]; intros x; simpl.
  - split; [lia|]. by intros y ?%elem_of_nil.
  - destruct (IH (Z.max x z)) as [H1 H2]. split; [lia|].
    intros y Hy. apply elem_of_cons in Hy as [->|Hy]; [lia|auto].
Qed.




(** *** Deleting *)





Example drop_third_on_first :
  (λ r, (t_id r, t_order_index r)) <$>
    default [] (fst <$> handleDrop 0 three_tasks three_tasks_state)
  = [(20%nat, 1); (21%nat, 2); (22%nat, 0)].
Proof. vm_compute. reflexivity. Qed.

End Tasks.

(** ** Tabs: answering again, reading back *)

Section TabsMore.
Import JS Spec RequirementsChat.

Local Ltac lookup_data :=
  repeat first
    [ rewrite lookup_set_if_eq
    | rewrite lookup_set_if_ne by done
    | rewrite lookup_insert_eq
    | rewrite lookup_insert_ne by done
    | rewrite lookup_empty ].

(** X1. Answering the tabs step again replaces the first answer: writing
    the tabs for one answer and then for another leaves the table that the
    second answer alone would leave. *)
Theorem X1_saveTabs_replaces projectId a b (tbl : list TabRow) :
  saveTabs projectId b (saveTabs projectId a tbl) = saveTabs projectId b tbl.
Proof.
  unfold saveTabs at 1 3. f_equal.
  apply (saveTabs_other_rows projectId a tbl).
Qed.

Global Instance by_order_index_total : Total by_order_index.
Proof. intros a b. unfold by_order_index. lia. Qed.

Global Instance by_order_index_trans : Transitive by_order_index.
Proof. intros a b c. unfold by_order_index. lia. Qed.

(** A list in strictly increasing order of [order_index] is the only sorted
    arrangement of its rows. *)
Lemma sorted_rows_unique (l l' : list TabRow) :
  l' ≡ₚ l →
  StronglySorted by_order_index l' →
  StronglySorted (λ a b, tab_order_index a < tab_order_index b) l →
  l' = l.
Proof.
  revert l'. induction l as [|x xs IH]; intros l' Hperm Hs' Hs.
  - by apply Permutation_nil.
  - destruct l' as [|y ys]; [by apply Permutation_nil_cons in Hperm|].
    apply StronglySorted_inv in Hs as [Hxs Hx].
    apply StronglySorted_inv in Hs' as [Hys Hy].
    rewrite Forall_forall in Hx, Hy.
    assert (y = x) as ->.
    { assert (y ∈ x :: xs) as Hin by (rewrite <- Hperm; by left).
      apply elem_of_cons in Hin as [->|Hin]; [done|].
      assert (x ∈ y :: ys) as Hin' by (rewrite Hperm; by left).
      apply elem_of_cons in Hin' as [->|Hin']; [done|].
      specialize (Hx _ Hin). specialize (Hy _ Hin'). unfold by_order_index in Hy. lia. }
    f_equal. apply IH; [|done|done]. by apply Permutation_cons_inv in Hperm.
Qed.

Lemma mapi_from_tabs_sorted projectId i names :
  let rows := mapi_from (λ name index,
                {| tab_project_id := projectId; tab_name := name;
                   tab_order_index := index |}) i names in
  Forall (λ r, i ≤ tab_order_index r) rows ∧
  StronglySorted (λ a b, tab_order_index a < tab_order_index b) rows.
Proof.
  revert i. induction names as [|name names IH]; intros i; simpl.
  - split; constructor.
  - destruct (IH (i + 1)) as [Hge Hs]. split.
    + constructor; [simpl; lia|]. eapply Forall_impl; [exact Hge|]. simpl. lia.
    + constructor; [done|]. eapply Forall_impl; [exact Hge|]. simpl. lia.
Qed.

Lemma tabNames_not_nil tabsInput : tabNames tabsInput ≠ [].
Proof.
  unfold tabNames. destruct (includes tabsInput ","); [|done].
  pose proof (split_not_nil "," tabsInput). by destruct (split "," tabsInput).
Qed.

(** X2. The tabs that the chat writes are read back in the order they were
    given: when the chat is opened again after [saveTabs], [data.tabs] is
    the tab names of the answer joined by [", "]. *)
Theorem X2_tabs_read_back projectId tabsInput projects funcs
    (tbl : list TabRow) filters adds :
  loadExistingRequirements projectId projects funcs
    (saveTabs projectId tabsInput tbl) filters adds !! "tabs"
  = Some (VStr (join ", " (tabNames tabsInput))).
Proof.
  unfold loadExistingRequirements.
  rewrite saveTabs_project_rows.
  set (rows := mapi _ (tabNames tabsInput)).
  assert (merge_sort by_order_index rows = rows) as ->.
  { apply sorted_rows_unique.
    - apply merge_sort_Permutation.
    - apply StronglySorted_merge_sort; apply _.
    - apply (mapi_from_tabs_sorted projectId 0). }
  assert (map tab_name rows = tabNames tabsInput) as ->.
  { apply (mapi_from_tabs projectId 0). }
  assert (bool_decide (rows ≠ []) = true) as ->.
  { apply bool_decide_eq_true. intros Hnil.
    apply (tabNames_not_nil tabsInput).
    apply (f_equal length) in Hnil. unfold rows, mapi in Hnil.
    rewrite mapi_from_length in Hnil. by destruct (tabNames tabsInput). }
  by lookup_data.
Qed.

Lemma split_space_cons s t ts :
  split "," s = t :: ts → split "," (String " " s) = String " " t :: ts.
Proof. intros Hs. simpl. by rewrite Hs. Qed.

Lemma split_append_sep a b :
  free_of "," a → split "," (a +:+ String "," b) = a :: split "," b.
Proof.
  induction a as [|c a IH]; simpl; [done|]. intros [Hne Hfree].
  rewrite decide_False by done.
  change (String.append a (String "," b)) with (a +:+ String "," b).
  by rewrite IH.
Qed.

Lemma split_join names name :
  Forall (free_of ",") (name :: names) →
  split "," (join ", " (name :: names)) = name :: map (String " ") names.
Proof.
  revert name. induction names as [|m ms IH]; intros name Hfree.
  - apply Forall_cons in Hfree as [Hn _]. simpl. by apply split_free.
  - apply Forall_cons in Hfree as [Hn Hms].
    change (join ", " (name :: m :: ms))
      with (name +:+ String "," (String " " (join ", " (m :: ms)))).
    rewrite split_append_sep by done.
    rewrite (split_space_cons _ m (map (String " ") ms)); [done|].
    by apply IH.
Qed.

Lemma trim_leading_space s : trim (String " " s) = trim s.
Proof. reflexivity. Qed.

Lemma includes_append_sep a b : includes (a +:+ String "," b) "," = true.
Proof.
  induction a as [|c a IH].
  - change ("" +:+ String "," b) with (String "," b). simpl.
    by destruct b.
  - change (String c a +:+ String "," b) with (String c (a +:+ String "," b)).
    simpl. rewrite IH. apply orb_true_r.
Qed.

Lemma includes_free s : free_of "," s → includes s "," = false.
Proof.
  induction s as [|c s IH]; [done|]. intros [Hc Hfree]. simpl.
  rewrite IH by done. rewrite decide_False; [done|]. by intros <-.
Qed.

(** X3. The tab names shown by the chat, joined by [", "], name the same
    tabs when they are given as an answer again, as long as there is a tab
    and no name holds a comma or has white space around it. *)
Theorem X3_tabNames_of_joined (names : list string) :
  names ≠ [] →
  Forall (λ n, free_of "," n ∧ trim n = n) names →
  tabNames (join ", " names) = names.
Proof.
  intros Hne Hclean.
  assert (Forall (free_of ",") names) as Hfree.
  { eapply Forall_impl; [exact Hclean|]. by intros n [? _]. }
  assert (map trim names = names) as Htrim.
  { rewrite <- (map_id names) at 2. apply map_ext_in. intros n Hn.
    rewrite Forall_forall in Hclean. apply Hclean. by apply list_elem_of_In. }
  destruct names as [|name [|m ms]]; [done| |].
  - unfold tabNames. simpl join.
    apply Forall_cons in Hclean as [[Hf Ht] _].
    by rewrite includes_free, Ht.
  - unfold tabNames.
    change (join ", " (name :: m :: ms))
      with (name +:+ String "," (String " " (join ", " (m :: ms)))).
    rewrite includes_append_sep.
    change (name +:+ String "," (String " " (join ", " (m :: ms))))
      with (join ", " (name :: m :: ms)).
    rewrite split_join by done.
    simpl map. simpl in Htrim. injection Htrim as Hn Hm Hms.
    rewrite trim_leading_space, Hn, Hm, map_map. f_equal. f_equal.
    rewrite <- Hms at 2. apply map_ext. intros n. apply trim_leading_space.
Qed.

Lemma X3_tabNames_of_joined_witness :
  tabNames (join ", " ["Overview"; "Sales"; "Detail"]) = ["Overview"; "Sales"; "Detail"].
Proof.
  apply X3_tabNames_of_joined; [done|].
  repeat constructor; simpl; intuition discriminate.
Defined.

End TabsMore.

(** ** Filters and functional requirements: what a reload finds *)

Section Reload.
Import JS Spec RequirementsChat FunctionalRequirements.

Local Ltac lookup_data :=
  repeat first
    [ rewrite lookup_set_if_eq
    | rewrite lookup_set_if_ne by done
    | rewrite lookup_insert_eq
    | rewrite lookup_insert_ne by done
    | rewrite lookup_empty ].

(** The key [filters] of the loaded data depends on the filters table alone. *)
Lemma loaded_filters projectId projects funcs tabs (filters : list FilterRow) adds :
  loadExistingRequirements projectId projects funcs tabs filters adds !! "filters"
  = if bool_decide (filter (λ r, f_tab_id r = None) filters ≠ [])
    then Some (VList (map f_name (filter (λ r, f_tab_id r = None) filters)))
    else None.
Proof.
  unfold loadExistingRequirements.
  destruct (maybeSingle (filter (λ r, p_id r = projectId) projects)) as [p|];
    [destruct (p_has_appendix_tab p), (p_has_metric_logic_tab p)|];
    destruct (maybeSingle (filter (λ r, fr_project_id r = projectId) funcs));
    by lookup_data.
Qed.

Lemma saveFilters_global projectId names (filters : list FilterRow) :
  filter (λ r, f_tab_id r = None) (saveFilters projectId names filters)
  = map (λ name, {| f_project_id := None; f_tab_id := None; f_name := name;
                    f_data_source := ""; f_multi_select := false |}) names.
Proof.
  unfold saveFilters.
  assert (filter (λ r, f_tab_id r = None) (filter (λ r, f_tab_id r ≠ None) filters) = [])
    as Hold.
  { apply filter_none, Forall_forall. intros r Hr.
    apply list_elem_of_filter in Hr as [Hne _]. done. }
  case_bool_decide as Hnames.
  - rewrite filter_app, Hold. simpl. apply filter_all.
    apply Forall_forall. intros r Hr.
    apply list_elem_of_fmap in Hr as (name & -> & _). done.
  - rewrite Hold. destruct names; [done|]. by destruct Hnames.
Qed.

(** X4. An answer of none at the filters step is not kept for a reload:
    after [saveFilters] with the empty list, the data loaded for any project
    has no [filters], so a chat that is opened again resumes at the filters
    step or before it, never after. *)
Theorem X4_filters_none_is_asked_again projectId projectId' projects funcs tabs
    (filters : list FilterRow) adds :
  let st := initializeChat projectId' projects funcs tabs
              (saveFilters projectId [] filters) adds in
  data st !! "filters" = None ∧
  step st ≠ SAppendix ∧ step st ≠ SMetricLogic ∧ step st ≠ SAdditional.
Proof.
  intros st. subst st. unfold initializeChat. simpl.
  set (d := loadExistingRequirements _ _ _ _ _ _).
  assert (d !! "filters" = None) as Hf.
  { unfold d. rewrite loaded_filters, saveFilters_global. done. }
  split; [done|]. unfold determineNextStep. rewrite Hf. simpl.
  repeat (destruct (truthy _); [|by split_and!]).
  by split_and!.
Qed.

(** X5. The filters table is read without regard to the project: after
    [saveFilters] with names, the data loaded for every project holds
    exactly these names as its filters, in the order given. *)
Theorem X5_filters_read_back projectId projectId' names projects funcs tabs
    (filters : list FilterRow) adds :
  names ≠ [] →
  loadExistingRequirements projectId' projects funcs tabs
    (saveFilters projectId names filters) adds !! "filters"
  = Some (VList names).
Proof.
  intros Hne. rewrite loaded_filters, saveFilters_global.
  rewrite bool_decide_true by (by destruct names).
  rewrite map_map. simpl. by rewrite map_id.
Qed.

Lemma X5_filters_read_back_witness :
  loadExistingRequirements 2 [] [] []
    (saveFilters 1 ["Region"; "Date"] []) [] !! "filters"
  = Some (VList ["Region"; "Date"]).
Proof. by apply X5_filters_read_back. Defined.

Lemma apply_update_project r u : fr_project_id (apply_update r u) = fr_project_id r.
Proof. unfold apply_update. destruct (u.2); repeat case_decide; done. Qed.

Lemma foldl_apply_update_project updates r :
  fr_project_id (foldl apply_update r updates) = fr_project_id r.
Proof.
  revert r. induction updates as [|u us IH]; intros r; simpl; [done|].
  by rewrite IH, apply_update_project.
Qed.

Lemma filter_update {A} (P : A → Prop) `{∀ x, Decision (P x)} (f : A → A) l :
  (∀ x, P x → P (f x)) →
  filter P (map (λ r, if decide (P r) then f r else r) l) = map f (filter P l).
Proof.
  intros Hf. induction l as [|x l IH]; [done|]. simpl.
  destruct (decide (P x)) as [Hx|Hx].
  - rewrite !filter_cons_True by auto. simpl. by rewrite IH.
  - rewrite !filter_cons_False by done. done.
Qed.

Lemma maybeSingle_filter_update {A} (P : A → Prop) `{∀ x, Decision (P x)} (f : A → A) l :
  (∀ x, P x → P (f x)) →
  maybeSingle (filter P (map (λ r, if decide (P r) then f r else r) l))
  = f <$> maybeSingle (filter P l).
Proof. intros Hf. by rewrite filter_update, maybeSingle_map. Qed.

(** Keys: no two rows of [l] carry the same [key], so at most one row is
    selected by a value of the key. *)
Lemma NoDup_at_most_one {A K} `{EqDecision K} (key : A → K) (k : K) (l : list A) :
  NoDup (map key l) → (length (filter (λ r, key r = k) l) ≤ 1)%nat.
Proof.
  induction l as [|x l IH]; [simpl; lia|]. simpl. intros [Hx Hl]%NoDup_cons.
  destruct (decide (key x = k)) as [Hp|Hp].
  - rewrite filter_cons_True by done. simpl.
    assert (filter (λ r, key r = k) l = []) as ->; [|simpl; lia].
    apply filter_none, Forall_forall. intros r Hr Hrp. apply Hx.
    apply list_elem_of_fmap. exists r. split; [congruence|done].
  - rewrite filter_cons_False by done. by apply IH.
Qed.

Lemma filter_other_update {A} (P : A → Prop) `{∀ x, Decision (P x)} (f : A → A) l :
  (∀ x, P x → P (f x)) →
  filter (λ x, ¬ P x) (map (λ r, if decide (P r) then f r else r) l)
  = filter (λ x, ¬ P x) l.
Proof.
  intros Hf. induction l as [|x l IH]; [done|]. simpl.
  destruct (decide (P x)) as [Hx|Hx].
  - rewrite !filter_cons_False by auto. done.
  - rewrite !filter_cons_True by done. by rewrite IH.
Qed.

(** The project's row after the upsert, when the project had at most one
    row: the patch applied to the row that was there, or to an empty row. *)
Lemma saveFunctionalRequirements_row projectId updates funcs :
  (length (filter (λ r, fr_project_id r = projectId) funcs) ≤ 1)%nat →
  maybeSingle (filter (λ r, fr_project_id r = projectId)
                 (saveFunctionalRequirements projectId updates funcs))
  = Some (foldl apply_update
            (default {| fr_project_id := projectId; fr_data_sources := None;
                        fr_metrics := None |}
               (maybeSingle (filter (λ r, fr_project_id r = projectId) funcs)))
            updates).
Proof.
  intros Hone. unfold saveFunctionalRequirements.
  destruct (maybeSingle (filter (λ r, fr_project_id r = projectId) funcs))
    as [r|] eqn:Hrow.
  - rewrite (maybeSingle_filter_update (λ r, fr_project_id r = projectId)
               (λ r, foldl apply_update r updates)).
    + by rewrite Hrow.
    + intros x Hx. by rewrite foldl_apply_update_project.
  - rewrite filter_app, (maybeSingle_None _ Hone Hrow).
    simpl. rewrite filter_cons_True; [done|].
    by rewrite foldl_apply_update_project.
Qed.

Lemma loaded_functional projectId projects funcs tabs (filters : list FilterRow) adds :
  let d := loadExistingRequirements projectId projects funcs tabs filters adds in
  let row := maybeSingle (filter (λ r, fr_project_id r = projectId) funcs) in
  d !! "data_sources"
    = (if array_filled (row ≫= fr_data_sources)
       then Some (VList (default [] (row ≫= fr_data_sources))) else None) ∧
  d !! "metrics"
    = (if array_filled (row ≫= fr_metrics)
       then Some (VList (default [] (row ≫= fr_metrics))) else None).
Proof.
  intros d row. subst d row. unfold loadExistingRequirements.
  destruct (maybeSingle (filter (λ r, p_id r = projectId) projects)) as [p|];
    [destruct (p_has_appendix_tab p), (p_has_metric_logic_tab p)|];
    destruct (maybeSingle (filter (λ r, fr_project_id r = projectId) funcs)) as [f|];
    simpl; split; lookup_data; try done.
  all: try (by destruct (array_filled (fr_data_sources f))).
Qed.

(** X6. For a project with at most one row of functional requirements, a
    list answered at the data_sources step is read back as it was stored,
    and the metrics stay what they were; the same holds with the two columns
    exchanged. The list is never empty: [split] yields a token for every
    answer. *)
Theorem X6_functional_lists_read_back projectId userInput projects funcs tabs
    (filters : list FilterRow) adds :
  (length (filter (λ r, fr_project_id r = projectId) funcs) ≤ 1)%nat →
  let v := map trim (split "," userInput) in
  let load := λ funcs, loadExistingRequirements projectId projects funcs tabs filters adds in
  let save := λ column, saveFunctionalRequirements projectId [(column, VList v)] funcs in
  load (save "data_sources") !! "data_sources" = Some (VList v) ∧
  load (save "data_sources") !! "metrics" = load funcs !! "metrics" ∧
  load (save "metrics") !! "metrics" = Some (VList v) ∧
  load (save "metrics") !! "data_sources" = load funcs !! "data_sources".
Proof.
  intros Hone v load save. subst load save.
  assert (v ≠ []) as Hv.
  { unfold v. pose proof (split_not_nil "," userInput).
    by destruct (split "," userInput). }
  clearbody v. cbv beta.
  destruct (loaded_functional projectId projects funcs tabs filters adds) as [Hd Hm].
  destruct (loaded_functional projectId projects
              (saveFunctionalRequirements projectId [("data_sources", VList v)] funcs)
              tabs filters adds) as [Hd1 Hm1].
  destruct (loaded_functional projectId projects
              (saveFunctionalRequirements projectId [("metrics", VList v)] funcs)
              tabs filters adds) as [Hd2 Hm2].
  cbv zeta in *.
  rewrite saveFunctionalRequirements_row in Hd1, Hm1, Hd2, Hm2 by done.
  rewrite Hd1, Hm1, Hd2, Hm2, Hd, Hm.
  destruct v as [|t ts]; [done|].
  destruct (maybeSingle (filter (λ r, fr_project_id r = projectId) funcs)) as [r|];
    simpl; done.
Qed.

(** A project without a row answers the data sources: the row is created
    and the list is read back. *)
Lemma X6_functional_lists_read_back_witness :
  loadExistingRequirements 1 [] (saveFunctionalRequirements 1
      [("data_sources", VList (map trim (split "," "SQL, Snowflake")))] []) [] [] []
    !! "data_sources" = Some (VList ["SQL"; "Snowflake"]).
Proof.
  destruct (X6_functional_lists_read_back 1%nat "SQL, Snowflake" [] [] [] [] [])
    as (Hd & _); [simpl; lia|].
  exact Hd.
Defined.

(** X7. The upsert keeps one row of functional requirements per project:
    when no two rows of the table belong to one project, the same holds
    after [saveFunctionalRequirements], the project has its row, and the rows
    of the other projects are as they were. *)
Theorem X7_functional_one_row_per_project projectId updates
    (funcs : list FunctionalRequirementsRow) :
  NoDup (map fr_project_id funcs) →
  let funcs' := saveFunctionalRequirements projectId updates funcs in
  NoDup (map fr_project_id funcs') ∧
  length (filter (λ r, fr_project_id r = projectId) funcs') = 1%nat ∧
  filter (λ r, fr_project_id r ≠ projectId) funcs'
    = filter (λ r, fr_project_id r ≠ projectId) funcs.
Proof.
  intros Hnd funcs'. subst funcs'. unfold saveFunctionalRequirements.
  set (upd := λ r, if decide (fr_project_id r = projectId)
                   then foldl apply_update r updates else r).
  assert (map fr_project_id (map upd funcs) = map fr_project_id funcs) as Hids.
  { rewrite map_map. apply map_ext. intros r. unfold upd.
    case_decide; [|done]. by rewrite foldl_apply_update_project. }
  pose proof (NoDup_at_most_one fr_project_id projectId funcs Hnd) as Hone.
  destruct (maybeSingle (filter (λ r, fr_project_id r = projectId) funcs))
    as [r|] eqn:Hrow.
  - apply maybeSingle_Some in Hrow. split_and!.
    + by rewrite Hids.
    + unfold upd.
      rewrite (filter_update (λ r, fr_project_id r = projectId)
                 (λ r, foldl apply_update r updates)), Hrow; [done|].
      intros x Hx. by rewrite foldl_apply_update_project.
    + apply (filter_other_update (λ r, fr_project_id r = projectId)
               (λ r, foldl apply_update r updates)).
      intros x Hx. by rewrite foldl_apply_update_project.
  - pose proof (maybeSingle_None _ Hone Hrow) as Hnone.
    rewrite !filter_app, Hnone, map_app. simpl.
    rewrite filter_cons_True by (by rewrite foldl_apply_update_project).
    rewrite filter_cons_False
      by (rewrite foldl_apply_update_project; simpl; by intros []).
    rewrite foldl_apply_update_project. simpl. split_and!; [|done|by rewrite app_nil_r].
    apply NoDup_app. split_and!; [done| |by apply NoDup_singleton].
    intros x Hx ->%list_elem_of_singleton.
    apply list_elem_of_fmap in Hx as (r & Hr & Hin).
    assert (r ∈ filter (λ r, fr_project_id r = projectId) funcs) as Hr'
      by (by apply list_elem_of_filter).
    rewrite Hnone in Hr'. by apply elem_of_nil in Hr'.
Qed.

Lemma X7_functional_one_row_per_project_witness :
  let funcs := [{| fr_project_id := 2; fr_data_sources := Some ["SQL"];
                   fr_metrics := None |}] in
  length (filter (λ r, fr_project_id r = 1%nat)
            (saveFunctionalRequirements 1 [("metrics", VList ["Revenue"])] funcs)) = 1%nat.
Proof.
  intros funcs.
  apply (X7_functional_one_row_per_project 1 [("metrics", VList ["Revenue"])] funcs).
  apply (bool_decide_unpack _). vm_compute. exact I.
Defined.

End Reload.

(** ** The design flow: what a reload finds *)

Section DesignReload.
Import JS Spec DesignRequirementsChat.

Local Ltac lookup_data :=
  repeat first
    [ rewrite lookup_set_if_eq
    | rewrite lookup_set_if_ne by done
    | rewrite lookup_insert_eq
    | rewrite lookup_insert_ne by done
    | rewrite lookup_empty ].

(** The project's row after the upsert, when the project had at most one
    row: the patch applied to the row that was there, or to an empty row. *)
Lemma saveDesignRequirements_row projectId updates designs :
  (∀ r, dr_project_id (updates r) = dr_project_id r) →
  (length (filter (λ r, dr_project_id r = projectId) designs) ≤ 1)%nat →
  maybeSingle (filter (λ r, dr_project_id r = projectId)
                 (saveDesignRequirements projectId updates designs))
  = Some (updates (default (blank_design_row projectId)
                     (maybeSingle (filter (λ r, dr_project_id r = projectId) designs)))).
Proof.
  intros Hupd Hone. unfold saveDesignRequirements.
  destruct (maybeSingle (filter (λ r, dr_project_id r = projectId) designs))
    as [r|] eqn:Hrow.
  - rewrite (maybeSingle_filter_update (λ r, dr_project_id r = projectId) updates).
    + by rewrite Hrow.
    + intros x Hx. by rewrite Hupd.
  - rewrite filter_app, (maybeSingle_None _ Hone Hrow).
    simpl. rewrite filter_cons_True; [done|]. by rewrite Hupd.
Qed.

(** With several rows for the project the upsert adds one more, and a
    reload finds none. *)
Lemma saveDesignRequirements_several projectId updates designs :
  (∀ r, dr_project_id (updates r) = dr_project_id r) →
  (1 < length (filter (λ r, dr_project_id r = projectId) designs))%nat →
  maybeSingle (filter (λ r, dr_project_id r = projectId)
                 (saveDesignRequirements projectId updates designs)) = None.
Proof.
  intros Hupd Hmany. unfold saveDesignRequirements.
  destruct (filter (λ r, dr_project_id r = projectId) designs)
    as [|x [|y rest]] eqn:Hf; simpl in Hmany; [lia|lia|].
  simpl. rewrite filter_app, Hf. by destruct rest.
Qed.

(** What is loaded from the project's row, key by key. *)
Lemma loaded_design projectId designs row :
  maybeSingle (filter (λ r, dr_project_id r = projectId) designs) = Some row →
  let d := loadExistingRequirements projectId designs in
  d !! "dashboard_size"
    = (if text_filled (dr_dashboard_size row)
       then Some (VStr (default "" (dr_dashboard_size row))) else None) ∧
  d !! "color_palette"
    = (if array_filled (dr_color_palette row)
       then Some (VList (default [] (dr_color_palette row))) else None) ∧
  d !! "fonts"
    = (if array_filled (dr_fonts row)
       then Some (VList (default [] (dr_fonts row))) else None) ∧
  d !! "additional_requirements"
    = (if text_filled (dr_additional_requirements row)
       then Some (VStr (default "" (dr_additional_requirements row))) else None).
Proof.
  intros Hrow d. subst d. unfold loadExistingRequirements. rewrite Hrow.
  split_and!; by lookup_data.
Qed.

(** X8. For a project with at most one row of design requirements, an
    answer of the design chat that is not empty is read back as it was given
    when the chat is opened again: the size and the additional requirements
    as text, the palette and the fonts as the list of their tokens. *)
Theorem X8_design_answers_read_back projectId userInput
    (d : gmap string jsval) (designs : list DesignRequirementsRow) :
  (length (filter (λ r, dr_project_id r = projectId) designs) ≤ 1)%nat →
  let answer := λ s, (processUserInput projectId userInput
                        {| step := s; data := d |} designs).2 in
  (userInput ≠ EmptyString →
     loadExistingRequirements projectId (answer SDashboardSize) !! "dashboard_size"
       = Some (VStr userInput)) ∧
  (parseList userInput ≠ [] →
     loadExistingRequirements projectId (answer SColorPalette) !! "color_palette"
       = Some (VList (parseList userInput))) ∧
  (parseList userInput ≠ [] →
     loadExistingRequirements projectId (answer SFonts) !! "fonts"
       = Some (VList (parseList userInput))) ∧
  (userInput ≠ EmptyString →
     loadExistingRequirements projectId (answer SAdditional) !! "additional_requirements"
       = Some (VStr userInput)).
Proof.
  intros Hone answer. subst answer. cbv beta. simpl.
  rewrite split_trim_filter_parseList.
  split_and!; intros Hne.
  - destruct (loaded_design projectId _ _
                (saveDesignRequirements_row projectId (set_dashboard_size userInput)
                   designs (λ _, eq_refl) Hone)) as (-> & _).
    simpl. by destruct userInput.
  - destruct (loaded_design projectId _ _
                (saveDesignRequirements_row projectId (set_color_palette (parseList userInput))
                   designs (λ _, eq_refl) Hone)) as (_ & -> & _).
    simpl. by destruct (parseList userInput).
  - destruct (loaded_design projectId _ _
                (saveDesignRequirements_row projectId (set_fonts (parseList userInput))
                   designs (λ _, eq_refl) Hone)) as (_ & _ & -> & _).
    simpl. by destruct (parseList userInput).
  - destruct (loaded_design projectId _ _
                (saveDesignRequirements_row projectId (set_additional_requirements userInput)
                   designs (λ _, eq_refl) Hone)) as (_ & _ & _ & ->).
    simpl. by destruct userInput.
Qed.

(** The palette is answered for a project that has its row, with a no-break
    space after the comma: the row is updated and the two colours are read
    back without it. *)
Lemma X8_design_answers_read_back_witness :
  loadExistingRequirements 1
    (processUserInput 1 (String "r" (String "e" (String "d" (String ","
        (String "160" (String "b" (String "l" (String "u" (String "e" "")))))))))
       {| step := SColorPalette; data := ∅ |} [blank_design_row 1]).2
    !! "color_palette"
  = Some (VList ["red"; "blue"]).
Proof.
  destruct (X8_design_answers_read_back 1
              (String "r" (String "e" (String "d" (String ","
                (String "160" (String "b" (String "l" (String "u" (String "e" "")))))))))
              ∅ [blank_design_row 1])
    as (_ & Hp & _); [simpl; lia|].
  apply Hp. vm_compute. discriminate.
Defined.

(** X9. A palette answer with no token (commas and white space only) moves
    the running chat on to the fonts, for the empty list it stores counts as
    an answer there; a chat opened again finds no palette and asks for it
    again, if not for the size. *)
Theorem X9_empty_palette_is_asked_again projectId userInput
    (d : gmap string jsval) (designs : list DesignRequirementsRow) :
  parseList userInput = [] →
  truthy (d !! "dashboard_size") = true →
  let r := processUserInput projectId userInput
             {| step := SColorPalette; data := d |} designs in
  data r.1 !! "color_palette" = Some (VList []) ∧
  step r.1 ≠ SColorPalette ∧ step r.1 ≠ SDashboardSize ∧
  loadExistingRequirements projectId r.2 !! "color_palette" = None ∧
  (step (initializeChat projectId r.2) = SDashboardSize ∨
   step (initializeChat projectId r.2) = SColorPalette).
Proof.
  intros Hempty Hsize r. subst r. simpl.
  rewrite split_trim_filter_parseList, Hempty.
  assert (loadExistingRequirements projectId
            (saveDesignRequirements projectId (set_color_palette []) designs)
            !! "color_palette" = None) as Hload.
  { destruct (decide (length (filter (λ r, dr_project_id r = projectId) designs) ≤ 1)%nat)
      as [Hone|Hmany].
    - by destruct (loaded_design projectId _ _
                     (saveDesignRequirements_row projectId (set_color_palette [])
                        designs (λ _, eq_refl) Hone)) as (_ & -> & _).
    - unfold loadExistingRequirements.
      rewrite (saveDesignRequirements_several projectId (set_color_palette []) designs
                 (λ _, eq_refl)) by lia.
      done. }
  split_and!.
  - by lookup_data.
  - unfold determineNextStep. lookup_data. rewrite Hsize. simpl.
    by repeat destruct (truthy _).
  - unfold determineNextStep. lookup_data. rewrite Hsize. simpl.
    by repeat destruct (truthy _).
  - done.
  - unfold determineNextStep. rewrite Hload. simpl.
    destruct (truthy (loadExistingRequirements _ _ !! "dashboard_size")); simpl; auto.
Qed.

Lemma X9_empty_palette_is_asked_again_witness :
  let r := processUserInput 1 " , ,"
             {| step := SColorPalette;
                data := <["dashboard_size" := VStr "1920x1080"]> ∅ |} [] in
  step r.1 ≠ SColorPalette ∧
  loadExistingRequirements 1 r.2 !! "color_palette" = None.
Proof.
  intros r.
  destruct (X9_empty_palette_is_asked_again 1 " , ,"
              (<["dashboard_size" := VStr "1920x1080"]> ∅) [])
    as (_ & Hs & _ & Hl & _); [reflexivity | reflexivity | done].
Defined.

(** X10. The upsert of the design chat keeps one row of design requirements
    per project: when no two rows belong to one project, the same holds
    after [saveDesignRequirements] with any of the chat's patches, the
    project has its row, and the rows of the other projects are as they
    were. *)
Theorem X10_design_one_row_per_project projectId updates
    (designs : list DesignRequirementsRow) :
  (∀ r, dr_project_id (updates r) = dr_project_id r) →
  NoDup (map dr_project_id designs) →
  let designs' := saveDesignRequirements projectId updates designs in
  NoDup (map dr_project_id designs') ∧
  (∃ row, filter (λ r, dr_project_id r = projectId) designs' = [row]) ∧
  filter (λ r, dr_project_id r ≠ projectId) designs'
    = filter (λ r, dr_project_id r ≠ projectId) designs.
Proof.
  intros Hupd Hnd designs'. subst designs'.
  pose proof (NoDup_at_most_one dr_project_id projectId designs Hnd) as Hone.
  unfold saveDesignRequirements.
  destruct (maybeSingle (filter (λ r, dr_project_id r = projectId) designs))
    as [r|] eqn:Hrow.
  - apply maybeSingle_Some in Hrow. split_and!.
    + rewrite map_map. rewrite (map_ext _ dr_project_id); [done|].
      intros x. by case_decide.
    + exists (updates r).
      rewrite (filter_update (λ r, dr_project_id r = projectId) updates), Hrow; [done|].
      intros x Hx. by rewrite Hupd.
    + apply (filter_other_update (λ r, dr_project_id r = projectId) updates).
      intros x Hx. by rewrite Hupd.
  - pose proof (maybeSingle_None _ Hone Hrow) as Hnone. split_and!.
    + rewrite map_app. simpl. rewrite Hupd. simpl.
      apply NoDup_app. split_and!; [done| |by apply NoDup_singleton].
      intros x Hx ->%list_elem_of_singleton.
      apply list_elem_of_fmap in Hx as (r & Hr & Hin).
      assert (r ∈ filter (λ r, dr_project_id r = projectId) designs) as Hr'
        by (by apply list_elem_of_filter).
      rewrite Hnone in Hr'. by apply elem_of_nil in Hr'.
    + eexists. rewrite filter_app, Hnone. simpl.
      rewrite filter_cons_True by (by rewrite Hupd). reflexivity.
    + rewrite filter_app, filter_cons_False, filter_nil, app_nil_r; [done|].
      rewrite Hupd. simpl. by intros [].
Qed.

Lemma X10_design_one_row_per_project_witness :
  ∃ row, filter (λ r, dr_project_id r = 1%nat)
           (saveDesignRequirements 1 (set_fonts ["Arial"]) [blank_design_row 2]) = [row].
Proof.
  apply (X10_design_one_row_per_project 1 (set_fonts ["Arial"]) [blank_design_row 2]).
  - done.
  - apply (bool_decide_unpack _). vm_compute. exact I.
Defined.

End DesignReload.

(** ** Tasks: where a drop puts a task, where a new task goes *)

Section TasksMore.
Import JS Spec TasksManager TaskEdits.

Lemma findIndex_from_found {A} (P : A → bool) i (l : list A) :
  (∃ y, y ∈ l ∧ P y = true) →
  ∃ k y, findIndex_from P i l = i + Z.of_nat k ∧ l !! k = Some y ∧ P y = true.
Proof.
  revert i. induction l as [|x l IH]; intros i (y & Hy & HP).
  - by apply elem_of_nil in Hy.
  - simpl. destruct (P x) eqn:Hx.
    + exists 0%nat, x. split_and!; [lia|done|done].
    + apply elem_of_cons in Hy as [->|Hy]; [congruence|].
      destruct (IH (i + 1)) as (k & z & Hk & Hz & HPz); [eauto|].
      exists (S k), z. split_and!; [lia|done|done].
Qed.

Lemma splice_start_in_range {A} (l : list A) (k : nat) :
  (k ≤ length l)%nat → splice_start l (Z.of_nat k) = k.
Proof.
  intros Hk. unfold splice_start.
  destruct (Z.of_nat k <? 0) eqn:Hneg; lia.
Qed.

(** X11. A drop moves the dragged task, that is the first task the
    component holds under that id, to the position it is dropped on, and the
    other tasks keep their order among themselves. *)
Theorem X11_drop_moves_the_dragged_task (dropIndex : nat) dragged
    (tbl : list TaskRow) (st : TasksState) :
  draggedTaskId st = Some dragged →
  (∃ t, t ∈ tasks st ∧ t_id t = dragged) →
  (dropIndex < length (tasks st))%nat →
  findIndex (λ t, bool_decide (t_id t = dragged)) (tasks st) ≠ Z.of_nat dropIndex →
  ∃ tbl' st' x,
    handleDrop (Z.of_nat dropIndex) tbl st = Some (tbl', st') ∧
    x ∈ tasks st ∧ t_id x = dragged ∧
    tasks st' !! dropIndex = Some x ∧
    filter (λ t, t_id t ≠ dragged) (tasks st')
      = filter (λ t, t_id t ≠ dragged) (tasks st) ∧
    draggedTaskId st' = None.
Proof.
  intros Hdrag (t & Ht & Hid) Hdrop Hmove. unfold handleDrop. rewrite Hdrag.
  rewrite bool_decide_false by done. unfold findIndex.
  destruct (findIndex_from_found (λ t, bool_decide (t_id t = dragged)) 0 (tasks st))
    as (k & x & -> & Hx & HPx).
  { exists t. split; [done|]. by apply bool_decide_eq_true. }
  apply bool_decide_eq_true in HPx.
  pose proof (lookup_lt_Some _ _ _ Hx) as Hk.
  unfold splice_remove. rewrite Z.add_0_l, splice_start_in_range by lia.
  rewrite Hx.
  set (rest := take k (tasks st) ++ drop (S k) (tasks st)).
  assert (length rest = (length (tasks st) - 1)%nat) as Hlen.
  { unfold rest. rewrite length_app, length_take, length_drop. lia. }
  unfold splice_insert. rewrite splice_start_in_range by lia.
  eexists _, _, x. split; [reflexivity|]. simpl.
  assert (filter (λ t, t_id t ≠ dragged) rest
            = filter (λ t, t_id t ≠ dragged) (tasks st)) as Hrest.
  { symmetry. rewrite <- (take_drop_middle (tasks st) k x Hx) at 1.
    unfold rest. rewrite !filter_app, filter_cons_False; [done|]. by intros []. }
  split_and!; [by eapply list_elem_of_lookup_2|done| | |done].
  - rewrite lookup_app_r by (rewrite length_take; lia).
    rewrite length_take. by replace (dropIndex - dropIndex `min` length rest)%nat with 0%nat by lia.
  - rewrite filter_app, filter_cons_False by (by intros []).
    rewrite <- filter_app, take_drop. done.
Qed.

Lemma X11_drop_moves_the_dragged_task_witness :
  ∃ tbl' st' x,
    handleDrop 0 Examples.three_tasks Examples.three_tasks_state = Some (tbl', st') ∧
    x ∈ tasks Examples.three_tasks_state ∧ t_id x = 22%nat ∧
    tasks st' !! 0%nat = Some x ∧
    filter (λ t, t_id t ≠ 22%nat) (tasks st')
      = filter (λ t, t_id t ≠ 22%nat) (tasks Examples.three_tasks_state) ∧
    draggedTaskId st' = None.
Proof.
  apply (X11_drop_moves_the_dragged_task 0 22 Examples.three_tasks
           Examples.three_tasks_state).
  - reflexivity.
  - exists (Examples.task 22 2). split; [|reflexivity].
    apply list_elem_of_In. simpl. auto.
  - simpl. lia.
  - vm_compute. discriminate.
Defined.

Lemma position_lookup ids (i : nat) x :
  NoDup ids → ids !! i = Some x → position x ids = Some i.
Proof.
  intros Hnd. revert i. induction Hnd as [|y ids Hy Hnd IH]; intros i Hi; [done|].
  destruct i as [|i]; simpl in *.
  - injection Hi as ->. by rewrite decide_True.
  - rewrite decide_False.
    + by rewrite (IH i Hi).
    + intros ->. apply Hy. by eapply list_elem_of_lookup_2.
Qed.

(** X12. After a drop every task that the component holds has, in the
    table, the [order_index] of the position where it is shown; the rows of
    tasks that the component does not hold are untouched, and no row is
    added or removed. *)
Theorem X12_drop_writes_positions (dropIndex : Z) dragged
    (tbl : list TaskRow) (st : TasksState) :
  NoDup (map t_id (tasks st)) →
  tasks st ≠ [] →
  draggedTaskId st = Some dragged →
  findIndex (λ t, bool_decide (t_id t = dragged)) (tasks st) ≠ dropIndex →
  ∃ tbl' st',
    handleDrop dropIndex tbl st = Some (tbl', st') ∧
    (∀ (i : nat) t r, tasks st' !! i = Some t → r ∈ tbl' → t_id r = t_id t →
                      t_order_index r = Z.of_nat i) ∧
    (∀ r, r ∈ tbl → t_id r ∉ map t_id (tasks st) → r ∈ tbl') ∧
    map t_id tbl' = map t_id tbl.
Proof.
  intros Hnd Hne Hdrag Hmove. unfold handleDrop. rewrite Hdrag.
  rewrite bool_decide_false by done.
  set (draggedIndex := findIndex _ _).
  destruct (splice_remove_some (tasks st) draggedIndex Hne) as [x Hx].
  { unfold draggedIndex, findIndex.
    pose proof (findIndex_from_lt (λ t, bool_decide (t_id t = dragged)) 0 (tasks st)
                  ltac:(lia) Hne).
    lia. }
  destruct (splice_remove (tasks st) draggedIndex) as [o rest] eqn:Hsplice.
  simpl in Hx. subst o.
  eexists _, _. split; [reflexivity|]. simpl.
  set (newTasks := splice_insert rest dropIndex x).
  assert (newTasks ≡ₚ tasks st) as Hperm.
  { unfold newTasks. rewrite splice_insert_perm. symmetry. by eapply splice_remove_perm. }
  assert (NoDup (map t_id newTasks)) as Hnd' by (by rewrite Hperm).
  unfold mapi. rewrite foldl_update_order_index by done.
  split_and!.
  - intros i t r Hi Hr Hid.
    apply list_elem_of_fmap in Hr as (r0 & -> & _).
    rewrite renumber_id in Hid. unfold renumber.
    rewrite Hid, (position_lookup _ i) by (by rewrite ?list_lookup_fmap, ?Hi).
    simpl. lia.
  - intros r Hr Hout. apply list_elem_of_fmap. exists r. split; [|done].
    unfold renumber. rewrite position_None; [done|]. by rewrite Hperm.
  - rewrite map_map. apply map_ext. intros r. apply renumber_id.
Qed.

Lemma X12_drop_writes_positions_witness :
  ∃ tbl' st',
    handleDrop 0 Examples.three_tasks Examples.three_tasks_state = Some (tbl', st') ∧
    map t_id tbl' = map t_id Examples.three_tasks.
Proof.
  destruct (X12_drop_writes_positions 0 22 Examples.three_tasks Examples.three_tasks_state)
    as (tbl' & st' & Hd & _ & _ & Hids).
  - apply (bool_decide_unpack _). vm_compute. exact I.
  - done.
  - reflexivity.
  - vm_compute. discriminate.
  - eauto.
Defined.

(** X13. A task is added only for a description that is more than white
    space. The new task is ordered after every task the component holds,
    gaps or not, and stands last in its list. *)
Theorem X13_new_task_goes_last projectId new_id (tbl : list TaskRow) (st : TasksState) :
  (trim (newTaskDescription st) = EmptyString →
     addTask projectId new_id tbl st = (tbl, st)) ∧
  (trim (newTaskDescription st) ≠ EmptyString →
     ∃ data,
       addTask projectId new_id tbl st
         = (tbl ++ [data],
            {| tasks := tasks st ++ [data]; newTaskDescription := "";
               draggedTaskId := draggedTaskId st |}) ∧
       t_id data = new_id ∧ t_project_id data = projectId ∧
       t_description data = trim (newTaskDescription st) ∧
       t_completed data = false ∧
       (∀ t, t ∈ tasks st → t_order_index t < t_order_index data)).
Proof.
  unfold addTask. split; intros Hdesc.
  - by rewrite Hdesc.
  - destruct (trim (newTaskDescription st)) as [|c desc] eqn:Htrim; [done|]. simpl.
    eexists. split_and!; [reflexivity..|]. simpl. intros t Ht.
    rewrite bool_decide_true by (intros Hnil; rewrite Hnil in Ht; by apply elem_of_nil in Ht).
    unfold Math_max.
    destruct (tasks st) as [|t0 ts] eqn:Hts; [by apply elem_of_nil in Ht|]. simpl.
    destruct (foldl_max_ge (map t_order_index ts) (t_order_index t0)) as [H0 Hall].
    apply elem_of_cons in Ht as [->|Ht]; [lia|].
    assert (t_order_index t ≤ foldl Z.max (t_order_index t0) (map t_order_index ts)); [|lia].
    apply Hall. apply list_elem_of_fmap. eauto.
Qed.

End TasksMore.

(** ** Tasks: ticking and rewording *)

Section TaskEditsProps.
Import JS Spec TasksManager TaskEdits.

Lemma project_tasks_map p (f : TaskRow → TaskRow) tbl :
  (∀ t, t_project_id (f t) = t_project_id t) →
  project_tasks p (map f tbl) = map f (project_tasks p tbl).
Proof.
  intros Hf. unfold project_tasks. induction tbl as [|t tbl IH]; simpl; [done|].
  rewrite !filter_cons, Hf, IH. by case_decide.
Qed.

Lemma map_fixes {A} (f : A → A) (l : list A) :
  (∀ x, x ∈ l → f x = x) → map f l = l.
Proof.
  intros Hf. rewrite <- (map_id l) at 2. apply map_ext_in.
  intros x Hx. apply Hf. by apply list_elem_of_In.
Qed.

(** X14. Ticking a task and rewording it leave the order alone: the
    project's tasks carry the same [order_index] values, row by row, after
    [toggleTaskCompletion] and after [saveEditTask]. Ticking twice, the
    second time with the flag then shown, gives back the table and the list
    when the rows of that task carried the flag that was shown. *)
Theorem X14_task_edits_keep_the_order p taskId completed (e : EditState)
    (tbl : list TaskRow) (st : TasksState) :
  map t_order_index (project_tasks p (toggleTaskCompletion taskId completed tbl st).1)
    = map t_order_index (project_tasks p tbl) ∧
  map t_order_index (project_tasks p (saveEditTask e tbl st).1.2)
    = map t_order_index (project_tasks p tbl) ∧
  ((∀ t, t ∈ tbl ∨ t ∈ tasks st → t_id t = taskId → t_completed t = completed) →
   toggleTaskCompletion taskId (negb completed)
     (toggleTaskCompletion taskId completed tbl st).1
     (toggleTaskCompletion taskId completed tbl st).2 = (tbl, st)).
Proof.
  split_and!.
  - unfold toggleTaskCompletion. simpl.
    rewrite project_tasks_map by (intros t; by case_decide).
    rewrite map_map. apply map_ext. intros t. by case_decide.
  - unfold saveEditTask. destruct (editingTaskId e); [|done].
    destruct (negb _); [done|]. simpl.
    rewrite project_tasks_map by (intros t; by case_decide).
    rewrite map_map. apply map_ext. intros t. by case_decide.
  - intros Hshown. unfold toggleTaskCompletion. simpl.
    rewrite !map_map, negb_involutive.
    assert (∀ l : list TaskRow,
              (∀ t, t ∈ l → t_id t = taskId → t_completed t = completed) →
              map (λ t, if decide
                          (t_id (if decide (t_id t = taskId)
                                 then set_completed (negb completed) t else t) = taskId)
                        then set_completed completed
                               (if decide (t_id t = taskId)
                                then set_completed (negb completed) t else t)
                        else if decide (t_id t = taskId)
                             then set_completed (negb completed) t else t) l = l) as Hback.
    { intros l Hl. apply map_fixes. intros t Ht.
      destruct (decide (t_id t = taskId)) as [Hid|Hid]; simpl.
      - rewrite decide_True by done. specialize (Hl t Ht Hid).
        destruct t; simpl in *. by subst.
      - by rewrite decide_False. }
    rewrite !Hback by (intros t Ht; apply Hshown; auto).
    by destruct st.
Qed.

End TaskEditsProps.

(** ** The version tree through the life of a project *)

Section LifecycleProps.
Import JS Spec ProjectEditor Lifecycle.

Lemma key_inj (tbl : list ProjectRow) x y :
  NoDup (map p_id tbl) → x ∈ tbl → y ∈ tbl → p_id x = p_id y → x = y.
Proof.
  induction tbl as [|z tbl IH]; simpl; intros Hnd Hx Hy Hid; [by apply elem_of_nil in Hx|].
  apply NoDup_cons in Hnd as [Hz Hnd].
  apply elem_of_cons in Hx as [->|Hx]; apply elem_of_cons in Hy as [->|Hy]; auto.
  - destruct Hz. rewrite Hid. apply list_elem_of_fmap. eauto.
  - destruct Hz. rewrite <- Hid. apply list_elem_of_fmap. eauto.
Qed.

Lemma persisted_in_tree cur tbl :
  persisted cur tbl → ∃ r, r ∈ tbl ∧ in_tree (rootId cur) r.
Proof.
  intros (r & Hr & Hid & Hpar). exists r. split; [done|].
  unfold in_tree, rootId. destruct (p_parent_project_id cur); simpl; auto.
Qed.

(** The latest version is the largest of the tree, for a project that has a
    row in the table. *)
Lemma getLatestVersion_max_persisted cur tbl :
  persisted cur tbl →
  (∀ r, r ∈ tbl → 1 ≤ p_version_number r) →
  let m := getLatestVersion (Some cur) tbl in
  1 ≤ m ∧
  (∃ r, r ∈ tbl ∧ in_tree (rootId cur) r ∧ p_version_number r = m) ∧
  (∀ r, r ∈ tbl → in_tree (rootId cur) r → p_version_number r ≤ m).
Proof.
  intros Hcur Hpos. simpl. rewrite maybeSingle_take_1.
  pose proof (latest_row_is_max (filter (in_tree (rootId cur)) tbl)) as Hmax.
  destruct (persisted_in_tree cur tbl Hcur) as (r0 & Hr0 & Ht0).
  assert (r0 ∈ filter (in_tree (rootId cur)) tbl) as Hin by (by apply list_elem_of_filter).
  destruct (head _) as [top|]; [|by rewrite Hmax in Hin; inversion Hin].
  destruct Hmax as [Htop Hle].
  apply list_elem_of_filter in Htop as [Htree Htop].
  pose proof (Hpos top Htop).
  destruct (decide (p_version_number top = 0)) as [Hz|_]; [lia|].
  split_and!; [done|eauto|].
  intros r Hr Hrt. apply Hle. by apply list_elem_of_filter.
Qed.

Lemma root_is_there cur tbl :
  well_formed tbl → persisted cur tbl →
  ∃ root, root ∈ tbl ∧ p_id root = rootId cur ∧ p_parent_project_id root = None.
Proof.
  intros Hwf (r & Hr & Hid & Hpar). unfold rootId.
  destruct (p_parent_project_id cur) as [q|] eqn:Hq; simpl.
  - by apply (wf_two_levels tbl Hwf r q).
  - exists r. by rewrite Hpar.
Qed.

Lemma fresh_tree_is_empty tbl new_id :
  well_formed tbl → new_id ∉ map p_id tbl → filter (in_tree new_id) tbl = [].
Proof.
  intros Hwf Hfresh. apply filter_none, Forall_forall. intros r Hr [Hid|Hpar].
  - apply Hfresh. rewrite <- Hid. apply list_elem_of_fmap. eauto.
  - destruct (wf_two_levels tbl Hwf r new_id Hr Hpar) as (root & Hroot & Hrid & _).
    apply Hfresh. rewrite <- Hrid. apply list_elem_of_fmap. eauto.
Qed.

(** Adding a row keeps the table well formed when its id is new, its parent
    a root that is there, and its version new in its tree. *)
Lemma well_formed_insert tbl e :
  well_formed tbl →
  p_id e ∉ map p_id tbl →
  (∀ q, p_parent_project_id e = Some q →
        ∃ root, root ∈ tbl ∧ p_id root = q ∧ p_parent_project_id root = None) →
  1 ≤ p_version_number e →
  (∀ q r, p_parent_project_id e = Some q → r ∈ tbl → in_tree q r →
          p_version_number r < p_version_number e) →
  well_formed (tbl ++ [e]).
Proof.
  intros Hwf Hfresh Hparent Hv Hnew. split.
  - rewrite map_app. simpl. apply NoDup_app. split_and!.
    + apply (wf_keys tbl Hwf).
    + by intros x Hx ->%list_elem_of_singleton.
    + apply NoDup_singleton.
  - intros r q Hr Hq. apply elem_of_app in Hr as [Hr|Hr].
    + destruct (wf_two_levels tbl Hwf r q Hr Hq) as (root & ? & ? & ?).
      exists root. split_and!; [|done|done]. apply elem_of_app. by left.
    + apply list_elem_of_singleton in Hr as ->.
      destruct (Hparent q Hq) as (root & ? & ? & ?).
      exists root. split_and!; [|done|done]. apply elem_of_app. by left.
  - intros r Hr. apply elem_of_app in Hr as [Hr|Hr].
    + by apply (wf_versions_from_1 tbl Hwf).
    + by apply list_elem_of_singleton in Hr as ->.
  - intros root. rewrite filter_app, map_app.
    destruct (decide (in_tree root e)) as [He|He].
    + rewrite (filter_cons_True (in_tree root)), filter_nil by done. simpl.
      destruct He as [Hid|Hpar].
      * rewrite <- Hid, fresh_tree_is_empty by done. simpl. apply NoDup_singleton.
      * apply NoDup_app. split_and!.
        -- apply (wf_versions_distinct tbl Hwf).
        -- intros v Hin ->%list_elem_of_singleton.
           apply list_elem_of_fmap in Hin as (r & Hrv & Hr).
           apply list_elem_of_filter in Hr as [Hrt Hr].
           specialize (Hnew root r Hpar Hr Hrt). lia.
        -- apply NoDup_singleton.
    + rewrite (filter_cons_False (in_tree root)), filter_nil, app_nil_r by done.
      apply (wf_versions_distinct tbl Hwf).
Qed.

Lemma enhancement_keeps_the_tree (w : World) (cur : ProjectRow) (u new_id : uuid) :
  well_formed (projects w) →
  project (editor w) = Some cur →
  user (editor w) = Some u →
  persisted cur (projects w) →
  new_id ∉ map p_id (projects w) →
  well_formed (projects (createEnhancement new_id w)) ∧
  ∃ e, projects (createEnhancement new_id w) = projects w ++ [e] ∧
       p_id e = new_id ∧
       ∀ r, r ∈ projects w → in_tree (rootId cur) r →
            p_version_number r < p_version_number e.
Proof.
  intros Hwf Hp Hu Hcur Hfresh.
  pose proof (getLatestVersion_max_persisted cur (projects w) Hcur
                (wf_versions_from_1 _ Hwf)) as Hmax.
  unfold createEnhancement. rewrite Hp, Hu. cbv zeta in *.
  set (m := getLatestVersion (Some cur) (projects w)) in *.
  destruct Hmax as (Hm1 & _ & Hle). clearbody m. simpl. split.
  - apply well_formed_insert; simpl; [done|done| |lia|].
    + intros q [= <-]. by apply root_is_there.
    + intros q r [= <-] Hr Hrt. specialize (Hle r Hr Hrt). lia.
  - eexists. split_and!; [reflexivity|done|].
    intros r Hr Hrt. specialize (Hle r Hr Hrt). simpl. lia.
Qed.

(** X15. Creating an enhancement keeps the projects table well formed (ids
    are keys, every parent is a root that is there, versions start at 1 and
    are distinct within a tree), and the version it gives is larger than
    every version of the tree. The id that the store generates is new. *)
Theorem X15_enhancement_keeps_the_tree (w : World) (cur : ProjectRow) (u new_id : uuid) :
  well_formed (projects w) →
  project (editor w) = Some cur →
  user (editor w) = Some u →
  persisted cur (projects w) →
  new_id ∉ map p_id (projects w) →
  well_formed (projects (createEnhancement new_id w)) ∧
  ∃ e, projects (createEnhancement new_id w) = projects w ++ [e] ∧
       p_id e = new_id ∧
       ∀ r, r ∈ projects w → in_tree (rootId cur) r →
            p_version_number r < p_version_number e.
Proof. apply enhancement_keeps_the_tree. Qed.

Lemma well_formed_R_E1 : well_formed (projects Examples.world_R_E1).
Proof.
  split.
  - apply (bool_decide_unpack _). vm_compute. exact I.
  - intros r q Hr Hq. exists Examples.project_R.
    apply list_elem_of_In in Hr. simpl in Hr.
    destruct Hr as [<-|[<-|[]]]; simpl in Hq; [done|].
    injection Hq as <-. split_and!; [|done|done]. apply list_elem_of_In. simpl. auto.
  - intros r Hr. apply list_elem_of_In in Hr. simpl in Hr.
    destruct Hr as [<-|[<-|[]]]; simpl; lia.
  - intros root. simpl. rewrite !filter_cons, filter_nil.
    repeat case_decide; simpl; apply (bool_decide_unpack _); vm_compute; exact I.
Qed.

Lemma X15_enhancement_keeps_the_tree_witness :
  well_formed (projects (createEnhancement 12 Examples.world_R_E1)).
Proof.
  apply (X15_enhancement_keeps_the_tree Examples.world_R_E1 Examples.project_E1 1 12).
  - apply well_formed_R_E1.
  - reflexivity.
  - reflexivity.
  - exists Examples.project_E1. split_and!; [|done|done].
    apply list_elem_of_In. simpl. auto.
  - vm_compute. intros Hin. apply list_elem_of_In in Hin. simpl in Hin.
    destruct Hin as [?|[?|[]]]; discriminate.
Defined.

(** X16. A new project is a root of its own with version 1 and status
    draft, and adding it keeps the table well formed; without a signed-in
    user nothing is created. *)
Theorem X16_new_project_is_a_root (projectName : option string) (new_id : uuid) (w : World) :
  well_formed (projects w) →
  new_id ∉ map p_id (projects w) →
  (user (editor w) = None → createNewProject projectName new_id w = w) ∧
  (is_Some (user (editor w)) →
     ∃ e, projects (createNewProject projectName new_id w) = projects w ++ [e] ∧
          p_id e = new_id ∧ p_parent_project_id e = None ∧
          p_version_number e = 1 ∧ p_status e = "draft" ∧ p_name e ≠ EmptyString ∧
          project (editor (createNewProject projectName new_id w)) = Some e ∧
          well_formed (projects (createNewProject projectName new_id w))).
Proof.
  intros Hwf Hfresh. unfold createNewProject. split.
  - by intros ->.
  - intros [u ->]. simpl. eexists. split_and!; try reflexivity.
    + simpl. destruct projectName as [[|c n]|]; done.
    + apply well_formed_insert; simpl; [done|done|done|lia|done].
Qed.

(** A signed-in user creates a project beside R and E1: the new row is a
    root with version 1, and the table stays well formed. *)
Lemma X16_new_project_is_a_root_witness :
  ∃ e, projects (createNewProject (Some "Sales") 12 Examples.world_R_E1)
         = projects Examples.world_R_E1 ++ [e] ∧
       p_id e = 12%nat ∧ p_parent_project_id e = None ∧ p_version_number e = 1 ∧
       p_status e = "draft" ∧
       well_formed (projects (createNewProject (Some "Sales") 12 Examples.world_R_E1)).
Proof.
  destruct (X16_new_project_is_a_root (Some "Sales") 12 Examples.world_R_E1)
    as [_ Hnew].
  - apply well_formed_R_E1.
  - vm_compute. intros Hin. apply list_elem_of_In in Hin. simpl in Hin.
    destruct Hin as [?|[?|[]]]; discriminate.
  - destruct Hnew as (e & He & Hid & Hpar & Hv & Hs & _ & _ & Hwf).
    + simpl. eauto.
    + exists e. split_and!; done.
Defined.

Lemma filter_iff_in {A} (P1 P2 : A → Prop)
    `{!∀ x, Decision (P1 x), !∀ x, Decision (P2 x)} (l : list A) :
  (∀ x, x ∈ l → P1 x ↔ P2 x) → filter P1 l = filter P2 l.
Proof.
  induction l as [|a l IH]; intros Hiff; [done|].
  assert (filter P1 l = filter P2 l) as Hl.
  { apply IH. intros x Hx. apply Hiff. by right. }
  destruct (decide (P1 a)) as [Ha|Ha].
  - rewrite !filter_cons_True; [by rewrite Hl|by apply Hiff; [left|]|done].
  - rewrite !filter_cons_False; [done| |done]. intros Ha'. apply Ha, Hiff; [by left|done].
Qed.

Lemma foldl_delete_rows (children tbl : list ProjectRow) :
  foldl (λ tbl child, delete_project_row tbl (p_id child)) tbl children
  = filter (λ r, p_id r ∉ map p_id children) tbl.
Proof.
  revert tbl. induction children as [|c cs IH]; intros tbl; simpl.
  - symmetry. apply filter_all, Forall_forall. intros r _. apply not_elem_of_nil.
  - rewrite IH. unfold delete_project_row. rewrite list_filter_filter.
    apply list_filter_iff. intros r. rewrite not_elem_of_cons. tauto.
Qed.

(** X17. Deleting the project that the editor shows removes its row and the
    rows of the projects whose parent it is, and no other row; the table
    stays well formed, so no project is left with a parent that is gone. *)
Theorem X17_delete_removes_the_tree (w : World) (p : ProjectRow) :
  well_formed (projects w) →
  project (editor w) = Some p →
  projects (deleteProject w) = filter (λ r, ¬ in_tree (p_id p) r) (projects w) ∧
  well_formed (projects (deleteProject w)).
Proof.
  intros Hwf Hp. unfold deleteProject. rewrite Hp. simpl.
  assert (delete_project_row
            (foldl (λ tbl child, delete_project_row tbl (p_id child)) (projects w)
               (filter (λ r, p_parent_project_id r = Some (p_id p)) (projects w)))
            (p_id p)
          = filter (λ r, ¬ in_tree (p_id p) r) (projects w)) as ->.
  { rewrite foldl_delete_rows. unfold delete_project_row. rewrite list_filter_filter.
    apply filter_iff_in. intros r Hr. unfold in_tree. split.
    - intros [Hne Hnot] [Hid|Hpar]; [done|]. apply Hnot.
      apply list_elem_of_fmap. exists r. split; [done|]. by apply list_elem_of_filter.
    - intros Hnot. split; [tauto|]. intros Hin.
      apply list_elem_of_fmap in Hin as (c & Hid & Hc).
      apply list_elem_of_filter in Hc as [Hpar Hc].
      assert (r = c) as -> by (by apply (key_inj (projects w)); [apply wf_keys|..]).
      tauto. }
  split; [done|]. split.
  - eapply sublist_NoDup; [apply (wf_keys _ Hwf)|].
    apply (fmap_sublist p_id), sublist_filter.
  - intros r q Hr Hq. apply list_elem_of_filter in Hr as [Hout Hr].
    destruct (wf_two_levels _ Hwf r q Hr Hq) as (root & Hroot & Hid & Hnone).
    exists root. split_and!; [|done|done]. apply list_elem_of_filter. split; [|done].
    unfold in_tree in *. intros [Hrid|Hrp]; [|congruence].
    apply Hout. right. congruence.
  - intros r Hr. apply list_elem_of_filter in Hr as [_ Hr].
    by apply (wf_versions_from_1 _ Hwf).
  - intros root. eapply sublist_NoDup; [apply (wf_versions_distinct _ Hwf root)|].
    apply (fmap_sublist p_version_number). rewrite list_filter_filter.
    rewrite (list_filter_iff _ (λ r, ¬ in_tree (p_id p) r ∧ in_tree root r))
      by (intros; tauto).
    rewrite <- list_filter_filter. apply sublist_filter.
Qed.

Lemma X17_delete_removes_the_tree_witness :
  projects (deleteProject
              {| editor := {| project := Some Examples.project_R; user := Some 1%nat;
                              showEnhancementDialog := false |};
                 projects := projects Examples.world_R_E1; change_history := [] |})
  = [].
Proof.
  destruct (X17_delete_removes_the_tree
              {| editor := {| project := Some Examples.project_R; user := Some 1%nat;
                              showEnhancementDialog := false |};
                 projects := projects Examples.world_R_E1; change_history := [] |}
              Examples.project_R) as [-> _].
  - apply well_formed_R_E1.
  - reflexivity.
  - reflexivity.
Defined.

Lemma in_tree_map (f : ProjectRow → ProjectRow) root tbl :
  (∀ r, p_id (f r) = p_id r ∧ p_parent_project_id (f r) = p_parent_project_id r) →
  filter (in_tree root) (map f tbl) = map f (filter (in_tree root) tbl).
Proof.
  intros Hf. induction tbl as [|r tbl IH]; [done|]. simpl.
  destruct (Hf r) as [Hid Hpar].
  destruct (decide (in_tree root r)) as [Hr|Hr].
  - rewrite !filter_cons_True; [by rewrite IH|done|]. unfold in_tree in *. by rewrite Hid, Hpar.
  - rewrite !filter_cons_False; [done|done|]. unfold in_tree in *. by rewrite Hid, Hpar.
Qed.

(** Rewriting columns other than the id, the parent and the version keeps
    the table well formed. *)
Lemma well_formed_map (f : ProjectRow → ProjectRow) tbl :
  (∀ r, p_id (f r) = p_id r ∧ p_parent_project_id (f r) = p_parent_project_id r) →
  (∀ r, p_version_number (f r) = p_version_number r) →
  well_formed tbl → well_formed (map f tbl).
Proof.
  intros Hf Hv Hwf. split.
  - rewrite map_map. rewrite (map_ext _ p_id); [apply (wf_keys _ Hwf)|].
    intros r. apply Hf.
  - intros r' q Hr' Hq. apply list_elem_of_fmap in Hr' as (r & -> & Hr).
    destruct (Hf r) as [_ Hpar]. rewrite Hpar in Hq.
    destruct (wf_two_levels _ Hwf r q Hr Hq) as (root & Hroot & Hid & Hnone).
    exists (f root). destruct (Hf root) as [Hid' Hpar'].
    split_and!; [|congruence|congruence]. apply list_elem_of_fmap. eauto.
  - intros r' Hr'. apply list_elem_of_fmap in Hr' as (r & -> & Hr).
    rewrite Hv. by apply (wf_versions_from_1 _ Hwf).
  - intros root. rewrite in_tree_map by done. rewrite map_map.
    rewrite (map_ext _ p_version_number); [apply (wf_versions_distinct _ Hwf)|done].
Qed.

(** X18. Marking a project done and then creating an enhancement, through
    the buttons of the editor: the project's row is done, the editor shows
    the new draft with the dialog closed, the new row hangs under the root
    with a version one above the largest of the tree, and the table is well
    formed. *)
Theorem X18_done_then_enhance (w : World) (cur : ProjectRow) (u new_id : uuid) :
  well_formed (projects w) →
  project (editor w) = Some cur →
  user (editor w) = Some u →
  cur ∈ projects w →
  p_status cur ≠ "done" →
  new_id ∉ map p_id (projects w) →
  let w' := handle (ClickDialogCreate new_id)
              (handle ClickCreateEnhancement (handle ClickMarkAsDone w)) in
  ∃ e m,
    project (editor w') = Some e ∧
    showEnhancementDialog (editor w') = false ∧
    e ∈ projects w' ∧ p_id e = new_id ∧ p_status e = "draft" ∧
    p_parent_project_id e = Some (rootId cur) ∧
    p_version_number e = m + 1 ∧
    (∃ r, r ∈ projects w ∧ in_tree (rootId cur) r ∧ p_version_number r = m) ∧
    (∀ r, r ∈ projects w → in_tree (rootId cur) r → p_version_number r ≤ m) ∧
    (∃ r, r ∈ projects w' ∧ p_id r = p_id cur ∧ p_status r = "done") ∧
    well_formed (projects w').
Proof.
  intros Hwf Hp Hu Hcur Hdraft Hfresh w'. subst w'.
  set (mark := λ r, if decide (p_id r = p_id cur) then set_status "done" u r else r).
  assert (∀ r, p_id (mark r) = p_id r ∧
               p_parent_project_id (mark r) = p_parent_project_id r) as Hmark.
  { intros r. unfold mark. by case_decide. }
  assert (∀ r, p_version_number (mark r) = p_version_number r) as Hmarkv.
  { intros r. unfold mark. by case_decide. }
  set (w1 := handle ClickCreateEnhancement (handle ClickMarkAsDone w)).
  assert (project (editor w1) = Some (with_status "done" cur) ∧
          user (editor w1) = Some u ∧
          showEnhancementDialog (editor w1) = true ∧
          projects w1 = map mark (projects w)) as (Hp1 & Hu1 & Hshow1 & Htbl1).
  { assert (handle ClickMarkAsDone w = markAsDone w) as Hdone.
    { unfold handle. rewrite Hp. by rewrite bool_decide_false. }
    unfold w1. rewrite Hdone. unfold markAsDone. rewrite Hp, Hu.
    unfold handle. simpl. done. }
  assert (well_formed (projects w1)) as Hwf1.
  { rewrite Htbl1. by apply well_formed_map. }
  assert (persisted (with_status "done" cur) (projects w1)) as Hpers.
  { exists (mark cur). rewrite Htbl1. destruct (Hmark cur) as [Hid Hpar].
    split_and!; [apply list_elem_of_fmap; eauto | exact Hid | exact Hpar]. }
  assert (new_id ∉ map p_id (projects w1)) as Hfresh1.
  { rewrite Htbl1, map_map. rewrite (map_ext _ p_id); [done|]. intros r. apply Hmark. }
  pose proof (getLatestVersion_max_persisted _ _ Hpers (wf_versions_from_1 _ Hwf1)) as Hmax.
  destruct (enhancement_keeps_the_tree w1 _ u new_id Hwf1 Hp1 Hu1 Hpers Hfresh1)
    as (Hwf2 & _).
  assert (handle (ClickDialogCreate new_id) w1 = createEnhancement new_id w1) as ->.
  { unfold handle. by rewrite Hp1, Hshow1. }
  unfold createEnhancement in *. rewrite Hp1, Hu1 in *. cbv zeta in *.
  change (rootId (with_status "done" cur)) with (rootId cur) in *.
  set (m := getLatestVersion _ _) in *.
  destruct Hmax as (_ & (r & Hr & Hrt & Hrm) & Hle). clearbody m. simpl in *.
  eexists _, m. split_and!; try reflexivity; try done.
  - apply elem_of_app. right. by left.
  - rewrite Htbl1 in Hr. apply list_elem_of_fmap in Hr as (r0 & -> & Hr0).
    exists r0. split_and!; [done| |by rewrite <- Hmarkv].
    destruct (Hmark r0) as [Hid Hpar]. unfold in_tree in *.
    by rewrite Hid, Hpar in Hrt.
  - intros r0 Hr0 Ht0. rewrite <- Hmarkv. apply Hle.
    + rewrite Htbl1. apply list_elem_of_fmap. eauto.
    + destruct (Hmark r0) as [Hid Hpar]. unfold in_tree in *.
      by rewrite Hid, Hpar.
  - exists (mark cur). destruct (Hmark cur) as [Hid _]. split_and!.
    + apply elem_of_app. left. rewrite Htbl1. apply list_elem_of_fmap. eauto.
    + exact Hid.
    + unfold mark. by rewrite decide_True.
Qed.

Lemma X18_done_then_enhance_witness :
  let w' := handle (ClickDialogCreate 12)
              (handle ClickCreateEnhancement (handle ClickMarkAsDone Examples.world_draft)) in
  ∃ e, project (editor w') = Some e ∧ p_version_number e = 2 ∧
       p_parent_project_id e = Some 10%nat.
Proof.
  intros w'.
  destruct (X18_done_then_enhance Examples.world_draft Examples.project_draft 1 12)
    as (e & m & He & _ & _ & _ & _ & Hpar & Hv & (r & Hr & _ & Hrm) & _).
  - split.
    + apply (bool_decide_unpack _). vm_compute. exact I.
    + intros r q Hr Hq. apply list_elem_of_In in Hr. simpl in Hr.
      destruct Hr as [<-|[]]. discriminate Hq.
    + intros r Hr. apply list_elem_of_In in Hr. simpl in Hr.
      destruct Hr as [<-|[]]. simpl. lia.
    + intros root. simpl. rewrite filter_cons, filter_nil.
      case_decide; simpl; apply (bool_decide_unpack _); vm_compute; exact I.
  - reflexivity.
  - reflexivity.
  - apply list_elem_of_In. simpl. auto.
  - simpl. discriminate.
  - vm_compute. intros Hin. apply list_elem_of_In in Hin. simpl in Hin.
    destruct Hin as [?|[]]; discriminate.
  - exists e. split_and!; [done| |done].
    apply list_elem_of_In in Hr. simpl in Hr. destruct Hr as [<-|[]].
    simpl in Hrm. subst m. done.
Defined.

End LifecycleProps.

(** ** The functional chat: routing, progress, and what it keeps *)

Section ChatMore.
Import JS Spec RequirementsChat.

Lemma handleChangeRequest_writes userInput (d : gmap string jsval) :
  (∀ c, SaveAdditionalRequirement c ∉ effects (handleChangeRequest userInput d)) ∧
  data (newState (handleChangeRequest userInput d)) !! "additional_requirements"
    = d !! "additional_requirements".
Proof.
  unfold handleChangeRequest.
  repeat (destruct (_ && _);
          [simpl; split;
           [intros c Hin; apply list_elem_of_In in Hin; simpl in Hin;
            intuition discriminate
           |by rewrite lookup_insert_ne]|]).
  simpl. split; [|done]. intros c Hin. by apply elem_of_nil in Hin.
Qed.

Lemma edit_command_is_no_keyword userInput :
  is_edit_command userInput = true →
  toLowerCase userInput ≠ "done" ∧ toLowerCase userInput ≠ "help" ∧
  toLowerCase userInput ≠ "?".
Proof.
  unfold is_edit_command. intros Hedit.
  split_and!; intros Heq; rewrite Heq in Hedit; vm_compute in Hedit; discriminate.
Qed.

(** X19. At the open end of the functional chat, a message that starts with
    change or update, or that holds [" to "] anywhere, is taken for an edit
    command: it is never stored as an additional requirement, whether or not
    a field is recognised in it, and the step after it is additional. *)
Theorem X19_edit_commands_are_not_notes userInput (d : gmap string jsval) (s : StepId) :
  s = SAdditional ∨ s = SComplete →
  is_edit_command userInput = true →
  let r := (generateResponse userInput {| step := s; data := d |}).1 in
  (∀ c, SaveAdditionalRequirement c ∉ effects r) ∧
  data (newState r) !! "additional_requirements" = d !! "additional_requirements" ∧
  step (newState r) = SAdditional.
Proof.
  intros Hs Hedit r. subst r.
  destruct (edit_command_is_no_keyword userInput Hedit) as (Hdone & Hhelp & Hq).
  destruct (handleChangeRequest_writes userInput d) as [Heff Hdata].
  destruct Hs as [-> | ->]; unfold generateResponse; cbn [step data];
    rewrite ?(bool_decide_false (toLowerCase userInput = "done")) by done;
    rewrite (bool_decide_false (toLowerCase userInput = "help")) by done;
    rewrite (bool_decide_false (toLowerCase userInput = "?")) by done;
    cbn [orb]; rewrite Hedit; cbn [fst];
    (split_and!; [done|done|apply handleChangeRequest_step]).
Qed.

Lemma X19_edit_commands_are_not_notes_witness :
  let r := (generateResponse "Users want to see trends"
              {| step := SAdditional; data := ∅ |}).1 in
  (∀ c, SaveAdditionalRequirement c ∉ effects r) ∧
  data (newState r) !! "additional_requirements" = None ∧
  step (newState r) = SAdditional.
Proof.
  intros r.
  destruct (X19_edit_commands_are_not_notes "Users want to see trends" ∅ SAdditional)
    as (Heff & Hdata & Hstep); [by left | reflexivity |].
  split_and!; [exact Heff | exact Hdata | exact Hstep].
Defined.

Lemma is_Some_insert (d : gmap string jsval) k k' v :
  is_Some (d !! k) → is_Some (<[k' := v]> d !! k).
Proof.
  intros Hk. destruct (decide (k' = k)) as [->|Hne].
  - rewrite lookup_insert_eq. eauto.
  - by rewrite lookup_insert_ne.
Qed.

(** X20. Neither chat forgets an answer while it runs: a key that the data
    holds before a message is handled is still held after it. *)
Theorem X20_answers_are_kept userInput (st : ConversationState) projectId designs k :
  is_Some (data st !! k) →
  is_Some (data (newState (generateResponse userInput st).1) !! k) ∧
  is_Some (data (DesignRequirementsChat.processUserInput projectId userInput st designs).1
             !! k).
Proof.
  intros Hk. split.
  - unfold generateResponse.
    assert (is_Some (data (newState (handleChangeRequest userInput (data st))) !! k)) as Hch.
    { rewrite handleChangeRequest_interpret.
      destruct (interpret_one_key userInput (data st)) as [->|(k' & v & ->)]; [done|].
      by apply is_Some_insert. }
    destruct (step st); simpl;
      repeat (destruct (bool_decide _ || bool_decide _); simpl);
      repeat (destruct (bool_decide _); simpl);
      repeat (destruct (is_edit_command _); simpl);
      try done; try (by apply is_Some_insert).
  - unfold DesignRequirementsChat.processUserInput.
    destruct (step st); simpl; try done; try (by apply is_Some_insert).
    destruct (_ || _); simpl; by repeat apply is_Some_insert.
Qed.

Lemma X20_answers_are_kept_witness :
  is_Some (data (newState (generateResponse "Finance team"
                   {| step := SAudience; data := <["name" := VStr "Sales"]> ∅ |}).1)
             !! "name").
Proof.
  apply (X20_answers_are_kept "Finance team"
           {| step := SAudience; data := <["name" := VStr "Sales"]> ∅ |} 1 [] "name").
  simpl. rewrite lookup_insert_eq. eauto.
Defined.

(** X21. The functional chat asks its nine questions in a fixed order
    whatever is answered: from the name step, nine messages bring the chat
    to the additional step, and every one of the nine fields is then held. *)
Theorem X21_nine_answers_reach_additional (answers : list string)
    (d : gmap string jsval) :
  length answers = 9%nat →
  let st := foldl (λ st userInput, newState (generateResponse userInput st).1)
              {| step := SName; data := d |} answers in
  step st = SAdditional ∧
  Forall (λ k, is_Some (data st !! k))
    ["name"; "description"; "audience"; "data_sources"; "metrics"; "tabs";
     "filters"; "has_appendix"; "has_metric_logic"].
Proof.
  intros Hlen.
  do 9 (destruct answers as [|? answers]; [discriminate Hlen|]).
  destruct answers; [|discriminate Hlen]. simpl.
  split; [done|].
  repeat (constructor; [repeat first [rewrite lookup_insert_eq; by eauto
                                     | rewrite lookup_insert_ne by done]|]).
  constructor.
Qed.

Lemma X21_nine_answers_reach_additional_witness :
  step (foldl (λ st userInput, newState (generateResponse userInput st).1)
          {| step := SName; data := ∅ |}
          ["Sales"; "Track sales"; "Managers"; "SQL"; "Revenue"; "Overview";
           "none"; "no"; "yes"]) = SAdditional.
Proof.
  apply (X21_nine_answers_reach_additional
           ["Sales"; "Track sales"; "Managers"; "SQL"; "Revenue"; "Overview";
            "none"; "no"; "yes"] ∅).
  reflexivity.
Defined.

End ChatMore.

(** * The edit command of the help text *)

Section EditCommands.
Import JS Spec RequirementsChat.

Lemma star_k_dot_all {R} i s (k : nat → string → option R) r :
  one_line s → k (i + String.length s)%nat EmptyString = Some r →
  star_k dot i s k = Some r.
Proof.
  revert i. induction s as [|c s IH]; intros i Hline Hk; simpl in *.
  - by rewrite Nat.add_0_r in Hk.
  - destruct Hline as [-> Hline]. rewrite (IH (S i)); [done|done|].
    by rewrite <- Hk, Nat.add_succ_r.
Qed.

Lemma substring_all s : substring 0 (String.length s) s = s.
Proof. induction s as [|c s IH]; simpl; [done|by rewrite IH]. Qed.

Lemma append_String a s t : String a s +:+ t = String a (s +:+ t).
Proof. reflexivity. Qed.

Lemma append_Empty t : EmptyString +:+ t = t.
Proof. reflexivity. Qed.

Lemma extractValue_change_name_to V :
  V ≠ EmptyString → ¬ starts_with_space V → one_line V →
  extractValue ("change name to " +:+ V) re_name = V.
Proof.
  intros Hne Hsp Hl. destruct V as [|c V']; [done|]. clear Hne.
  simpl in Hsp. apply not_true_is_false in Hsp. destruct Hl as [Hd Hl].
  rewrite !append_String, append_Empty.
  unfold extractValue, match1, to_pattern, re_name.
  cbn.
  repeat (first [rewrite decide_False by (vm_compute; discriminate)
                | rewrite decide_True by reflexivity]; cbn).
  unfold space. rewrite Hsp. cbn. rewrite Hd. cbn.
  rewrite (star_k_dot_all 16 V' _ (7, 16 + String.length V', Some (String c V'))%nat);
    [done|done|].
  do 3 f_equal. replace (16 + String.length V' - 15)%nat with (S (String.length V')) by lia.
  by rewrite substring_all.
Qed.

Lemma handleChangeRequest_change_name_to (V : string) (d : gmap string jsval) :
  V ≠ EmptyString → ¬ starts_with_space V → one_line V →
  handleChangeRequest ("change name to " +:+ V) d
  = changed (<["name" := VStr V]> d)
      [OnProjectUpdate "name" (VStr V); SaveFunctionalRequirements []].
Proof.
  intros Hne Hsp Hl. unfold handleChangeRequest. cbv zeta.
  rewrite (extractValue_change_name_to V Hne Hsp Hl).
  assert (includes (toLowerCase ("change name to " +:+ V)) "name" = true) as ->.
  { rewrite !append_String, append_Empty. cbn.
    repeat (first [rewrite decide_False by (vm_compute; discriminate)
                  | rewrite decide_True by reflexivity]; cbn).
    apply orb_true_r || reflexivity. }
  assert (nonempty V = true) as -> by by destruct V.
  reflexivity.
Qed.

(** X22. The edit command of the help text does what it says for every new
    name: at the open end of the chat, [change name to V] sets the name to
    [V] as typed and leaves every other answer alone, tells the editor, and
    keeps the chat at the additional step, when [V] is not empty, does not
    start with white space and holds no line break. *)
Theorem X22_change_name_to (V : string) (d : gmap string jsval) (s : StepId) :
  s = SAdditional ∨ s = SComplete ∨ s = SChangeRequest →
  V ≠ EmptyString → ¬ starts_with_space V → one_line V →
  let r := (generateResponse ("change name to " +:+ V) {| step := s; data := d |}).1 in
  data (newState r) = <["name" := VStr V]> d ∧
  step (newState r) = SAdditional ∧
  effects r = [OnProjectUpdate "name" (VStr V); SaveFunctionalRequirements []].
Proof.
  intros Hs Hne Hsp Hl r. subst r.
  assert (is_edit_command ("change name to " +:+ V) = true) as Hedit.
  { unfold is_edit_command. rewrite !append_String, append_Empty. cbn.
    repeat (first [rewrite decide_False by (vm_compute; discriminate)
                  | rewrite decide_True by reflexivity]; cbn).
    reflexivity. }
  destruct (edit_command_is_no_keyword _ Hedit) as (Hdone & Hhelp & Hq).
  assert ((generateResponse ("change name to " +:+ V) {| step := s; data := d |}).1
          = handleChangeRequest ("change name to " +:+ V) d) as ->.
  { unfold generateResponse. cbn [step data].
    destruct Hs as [->|[->| ->]]; [| |done].
    - rewrite (bool_decide_eq_false_2 _ Hdone).
      rewrite !(bool_decide_eq_false_2 _ Hhelp), !(bool_decide_eq_false_2 _ Hq).
      cbn [orb]. by rewrite Hedit.
    - rewrite !(bool_decide_eq_false_2 _ Hhelp), !(bool_decide_eq_false_2 _ Hq).
      cbn [orb]. by rewrite Hedit. }
  by rewrite handleChangeRequest_change_name_to.
Qed.

Lemma X22_change_name_to_witness :
  data (newState (generateResponse "change name to Sales Dashboard"
                    {| step := SComplete; data := ∅ |}).1)
  = <["name" := VStr "Sales Dashboard"]> ∅.
Proof.
  destruct (X22_change_name_to "Sales Dashboard" ∅ SComplete) as (Hdata & _);
    [by right; left | done | by simpl | by vm_compute |].
  exact Hdata.
Defined.

End EditCommands.

(** * The preview's list boxes *)

Section PreviewEdits.
Import JS Spec RequirementsChat FunctionalRequirements.

Lemma parseEdited_editText (l : list string) :
  Forall (free_of ",") l →
  parseEdited (editText (Some l)) = filter (λ v, nonempty v = true) (map trim l).
Proof.
  intros Hfree. unfold parseEdited, editText.
  destruct l as [|name names]; [done|].
  rewrite split_join by done. simpl map. do 2 f_equal.
  rewrite map_map. apply map_ext. intros n. apply trim_leading_space.
Qed.

Lemma editText_None : parseEdited (editText None) = [].
Proof. reflexivity. Qed.

Lemma parseEdited_option (l : option (list string)) :
  Forall (free_of ",") (default [] l) →
  parseEdited (editText l)
  = filter (λ v, nonempty v = true) (map trim (default [] l)).
Proof. destruct l as [l|]; [apply parseEdited_editText | done]. Qed.

(** X23. Saving the preview's form with its two list boxes as they were
    filled from the loaded row stores each list with its entries trimmed and
    the empty ones dropped, a missing list as the empty list, provided no
    entry holds a comma. A list whose entries are not empty and have no white
    space around them is stored as it was. *)
Theorem X23_preview_save_cleans_the_lists projectId (r : FunctionalRequirementsRow)
    (funcs : list FunctionalRequirementsRow) :
  maybeSingle (filter (λ r, fr_project_id r = projectId) funcs) = Some r →
  Forall (free_of ",") (default [] (fr_data_sources r)) →
  Forall (free_of ",") (default [] (fr_metrics r)) →
  let clean := λ l : option (list string),
    filter (λ v, nonempty v = true) (map trim (default [] l)) in
  maybeSingle (filter (λ r, fr_project_id r = projectId)
                 (handleUpdate projectId (Some r) (editText (fr_data_sources r))
                    (editText (fr_metrics r)) funcs))
  = Some {| fr_project_id := projectId;
            fr_data_sources := Some (clean (fr_data_sources r));
            fr_metrics := Some (clean (fr_metrics r)) |} ∧
  (∀ l, Forall (λ v, trim v = v ∧ v ≠ EmptyString) l → clean (Some l) = l).
Proof.
  intros Hrow Hds Hms clean. split.
  - unfold handleUpdate. cbv zeta.
    rewrite (maybeSingle_filter_update (λ r, fr_project_id r = projectId)
               (λ x, {| fr_project_id := fr_project_id x;
                        fr_data_sources := Some (parseEdited (editText (fr_data_sources r)));
                        fr_metrics := Some (parseEdited (editText (fr_metrics r))) |}))
      by done.
    rewrite Hrow. simpl. rewrite !parseEdited_option by done.
    apply maybeSingle_Some in Hrow.
    assert (r ∈ filter (λ r, fr_project_id r = projectId) funcs) as Hin
      by (rewrite Hrow; by left).
    apply list_elem_of_filter in Hin as [-> _]. done.
  - intros l Hl. unfold clean. simpl.
    assert (map trim l = l) as ->.
    { rewrite <- (map_id l) at 2. apply map_ext_in. intros v Hv.
      rewrite Forall_forall in Hl. apply Hl. by apply list_elem_of_In. }
    apply filter_all. eapply Forall_impl; [exact Hl|].
    intros v [_ Hv]. by apply nonempty_true.
Qed.

Lemma X23_preview_save_cleans_the_lists_witness :
  maybeSingle (filter (λ r, fr_project_id r = 1%nat)
                 (handleUpdate 1%nat
                    (Some {| fr_project_id := 1; fr_data_sources := Some ["a"; "b"; ""; "c"];
                             fr_metrics := None |})
                    "a, b, , c" ""
                    [{| fr_project_id := 1; fr_data_sources := Some ["a"; "b"; ""; "c"];
                        fr_metrics := None |}]))
  = Some {| fr_project_id := 1; fr_data_sources := Some ["a"; "b"; "c"];
            fr_metrics := Some [] |}.
Proof.
  apply (X23_preview_save_cleans_the_lists 1%nat
           {| fr_project_id := 1; fr_data_sources := Some ["a"; "b"; ""; "c"];
              fr_metrics := None |}
           [{| fr_project_id := 1; fr_data_sources := Some ["a"; "b"; ""; "c"];
               fr_metrics := None |}]).
  - reflexivity.
  - simpl. repeat constructor; by vm_compute.
  - constructor.
Defined.

End PreviewEdits.

(** * Notes at the open end of the chat *)

Section Notes.
Import JS Spec RequirementsChat.

Local Ltac lookup_data :=
  repeat first
    [ rewrite lookup_set_if_eq
    | rewrite lookup_set_if_ne by done
    | rewrite lookup_insert_eq
    | rewrite lookup_insert_ne by done
    | rewrite lookup_empty ].

Lemma loaded_additional projectId projects funcs tabs (filters : list FilterRow)
    (adds : list AdditionalRequirementRow) :
  loadExistingRequirements projectId projects funcs tabs filters adds
    !! "additional_requirements"
  = let rows := filter (λ r, ar_project_id r = projectId ∧ ar_category r = "functional")
                  adds in
    if bool_decide (rows ≠ []) then Some (VList (map ar_content rows)) else None.
Proof.
  unfold loadExistingRequirements.
  destruct (maybeSingle (filter (λ r, p_id r = projectId) projects)) as [p|];
    [destruct (p_has_appendix_tab p), (p_has_metric_logic_tab p)|];
    destruct (maybeSingle (filter (λ r, fr_project_id r = projectId) funcs));
    by lookup_data.
Qed.

(** X24. A note typed at the open end of the chat is held by the chat and
    written to the table in step: when the notes that the chat holds are the
    ones a reload would give, they still are after the note is handled and
    its row is inserted, and the note stands last among them. *)
Theorem X24_notes_stay_in_step projectId userInput (s : StepId) (d : gmap string jsval)
    projects funcs tabs (filters : list FilterRow) (adds : list AdditionalRequirementRow) :
  s = SAdditional ∨ s = SComplete →
  (s = SAdditional → toLowerCase userInput ≠ "done") →
  toLowerCase userInput ≠ "help" →
  toLowerCase userInput ≠ "?" →
  is_edit_command userInput = false →
  d !! "additional_requirements"
    = loadExistingRequirements projectId projects funcs tabs filters adds
        !! "additional_requirements" →
  let r := (generateResponse userInput {| step := s; data := d |}).1 in
  let notes := map ar_content
                 (filter (λ r, ar_project_id r = projectId ∧ ar_category r = "functional")
                    adds) in
  effects r = [SaveAdditionalRequirement userInput] ∧
  step (newState r) = s ∧
  data (newState r) !! "additional_requirements" = Some (VList (notes ++ [userInput])) ∧
  loadExistingRequirements projectId projects funcs tabs filters
      (saveAdditionalRequirement projectId userInput adds) !! "additional_requirements"
    = Some (VList (notes ++ [userInput])).
Proof.
  intros Hs Hdone Hhelp Hq Hedit Hsync r notes. subst r notes.
  rewrite loaded_additional in Hsync. rewrite loaded_additional. cbv zeta in *.
  unfold saveAdditionalRequirement. rewrite filter_app.
  rewrite (filter_cons_True _ _ []) by done. rewrite filter_nil.
  set (rows := filter _ adds) in *. clearbody rows.
  assert (match d !! "additional_requirements" with
          | Some (VList l) => l | _ => [] end = map ar_content rows) as Hcur.
  { rewrite Hsync. case_bool_decide as Hrows; [done|].
    by destruct rows. }
  assert ((generateResponse userInput {| step := s; data := d |}).1
          = reply s (push_additional userInput d) [SaveAdditionalRequirement userInput])
    as ->.
  { unfold generateResponse. cbn [step data].
    destruct Hs as [->| ->].
    - rewrite bool_decide_eq_false_2 by auto.
      rewrite !(bool_decide_eq_false_2 _ Hhelp), !(bool_decide_eq_false_2 _ Hq).
      cbn [orb]. by rewrite Hedit.
    - rewrite !(bool_decide_eq_false_2 _ Hhelp), !(bool_decide_eq_false_2 _ Hq).
      cbn [orb]. by rewrite Hedit. }
  unfold reply, push_additional. cbn [effects newState step data].
  rewrite lookup_insert_eq, Hcur. split_and!; [done..|].
  rewrite bool_decide_eq_true_2 by (by destruct rows).
  by rewrite map_app.
Qed.

Lemma X24_notes_stay_in_step_witness :
  effects (generateResponse "Needs a dark mode" {| step := SComplete; data := ∅ |}).1
  = [SaveAdditionalRequirement "Needs a dark mode"].
Proof.
  destruct (X24_notes_stay_in_step 1%nat "Needs a dark mode" SComplete ∅ [] [] [] [] [])
    as (Heff & _); try done.
  by right.
Defined.

End Notes.

(** * File names of the exports *)

Section ExportName.
Import JS Spec Lifecycle.









End ExportName.

(** * Reloading the tasks after a drop *)

Section TasksReload.
Import JS Spec TasksManager.

Lemma StronglySorted_fmap_in {A B} (f : A → B) (R1 : relation A) (R2 : relation B) l :
  (∀ x y, x ∈ l → y ∈ l → R1 x y → R2 (f x) (f y)) →
  StronglySorted R1 l → StronglySorted R2 (map f l).
Proof.
  intros Hf Hs. induction Hs as [|x l Hs IH Hx]; simpl; constructor.
  - apply IH. intros a b Ha Hb. apply Hf; by right.
  - apply Forall_forall. intros b Hb.
    apply list_elem_of_fmap in Hb as (y & -> & Hy).
    rewrite Forall_forall in Hx. apply Hf; [by left|by right|by apply Hx].
Qed.

Lemma StronglySorted_lookup {A} (R : relation A) l :
  (∀ (i j : nat) x y, l !! i = Some x → l !! j = Some y → (i < j)%nat → R x y) →
  StronglySorted R l.
Proof.
  induction l as [|a l IH]; intros HR; constructor.
  - apply IH. intros i j x y Hi Hj Hlt. apply (HR (S i) (S j)); [done|done|lia].
  - apply Forall_forall. intros y Hy.
    apply list_elem_of_lookup in Hy as [j Hj].
    apply (HR 0%nat (S j)); [done|done|lia].
Qed.

Lemma position_Some x ids (i : nat) : position x ids = Some i → ids !! i = Some x.
Proof.
  revert i. induction ids as [|y ids IH]; intros i; simpl; [done|].
  destruct (decide (y = x)) as [->|Hne].
  - by intros [= <-].
  - destruct (position x ids) as [k|]; [|done]. intros [= <-]. by apply IH.
Qed.

Lemma index_of_lookup ids (i : nat) x :
  NoDup ids → ids !! i = Some x → index_of ids x = Z.of_nat i.
Proof. intros Hnd Hi. unfold index_of. by rewrite (position_lookup ids i x). Qed.

(** The ids in strictly increasing order of the index written for them
    are the ids in the order of the list. *)
Lemma sorted_by_index_of ids (l : list uuid) :
  NoDup ids → l ≡ₚ ids →
  StronglySorted (λ a b, index_of ids a ≤ index_of ids b) l →
  l = ids.
Proof.
  intros Hnd Hperm Hs.
  apply (StronglySorted_unique_strong (λ a b, index_of ids a ≤ index_of ids b));
    [|done| |done].
  - intros x y Hx Hy Hxy Hyx. rewrite Hperm in Hx.
    apply list_elem_of_lookup in Hx as [i Hi]. apply list_elem_of_lookup in Hy as [j Hj].
    rewrite (index_of_lookup ids i x), (index_of_lookup ids j y) in * by done.
    assert (i = j) as -> by lia. congruence.
  - apply StronglySorted_lookup. intros i j x y Hi Hj Hlt.
    rewrite (index_of_lookup ids i x), (index_of_lookup ids j y) by done. lia.
Qed.

(** X26. The order that a drop leaves is the order of a reload: when the
    component holds the project's tasks, every answer to the query of
    [loadTasks] after the drop, that is the project's rows in an ascending
    order of [order_index], lists the tasks as the component shows them. *)
Theorem X26_drop_order_survives_a_reload p (dropIndex : Z) dragged
    (tbl : list TaskRow) (st : TasksState) :
  NoDup (map t_id tbl) →
  map t_id (tasks st) ≡ₚ map t_id (project_tasks p tbl) →
  tasks st ≠ [] →
  draggedTaskId st = Some dragged →
  findIndex (λ t, bool_decide (t_id t = dragged)) (tasks st) ≠ dropIndex →
  ∃ tbl' st',
    handleDrop dropIndex tbl st = Some (tbl', st') ∧
    ∀ loaded, loaded ≡ₚ project_tasks p tbl' →
              StronglySorted (λ a b, t_order_index a ≤ t_order_index b) loaded →
              map t_id loaded = map t_id (tasks st').
Proof.
  intros Hkeys Hsync Hne Hdrag Hmove. unfold handleDrop. rewrite Hdrag.
  rewrite bool_decide_false by done.
  set (draggedIndex := findIndex _ _).
  destruct (splice_remove_some (tasks st) draggedIndex Hne) as [x Hx].
  { unfold draggedIndex, findIndex.
    pose proof (findIndex_from_lt (λ t, bool_decide (t_id t = dragged)) 0 (tasks st)
                  ltac:(lia) Hne).
    lia. }
  destruct (splice_remove (tasks st) draggedIndex) as [o rest] eqn:Hsplice.
  simpl in Hx. subst o.
  eexists _, _. split; [reflexivity|]. simpl.
  set (newTasks := splice_insert rest dropIndex x).
  assert (newTasks ≡ₚ tasks st) as Hperm.
  { unfold newTasks. rewrite splice_insert_perm. symmetry. by eapply splice_remove_perm. }
  assert (NoDup (map t_id newTasks)) as Hnd.
  { rewrite Hperm, Hsync. unfold project_tasks.
    eapply sublist_NoDup; [exact Hkeys|].
    apply (fmap_sublist t_id), sublist_filter. }
  unfold mapi. rewrite foldl_update_order_index by done.
  rewrite project_tasks_renumber.
  set (ids := map t_id newTasks) in *.
  intros loaded Hloaded Hsorted.
  assert (map t_id loaded ≡ₚ ids) as Hids.
  { rewrite Hloaded, map_map.
    rewrite (map_ext _ t_id (λ r, renumber_id ids 0 r)).
    unfold ids. by rewrite Hperm, Hsync. }
  apply sorted_by_index_of; [done|done|].
  apply (StronglySorted_fmap_in t_id (λ a b, t_order_index a ≤ t_order_index b)); [|done].
  assert (∀ r, r ∈ loaded → t_order_index r = index_of ids (t_id r)) as Hindex.
  { intros r Hr. rewrite Hloaded in Hr.
    apply list_elem_of_fmap in Hr as (r0 & -> & Hr0).
    rewrite renumber_id. unfold renumber, index_of.
    assert (t_id r0 ∈ ids) as Hin.
    { unfold ids. rewrite Hperm, Hsync. apply list_elem_of_fmap. eauto. }
    destruct (position_is_Some _ _ Hin) as [i ->]. simpl. lia. }
  intros a b Ha Hb. by rewrite (Hindex a Ha), (Hindex b Hb).
Qed.

Lemma X26_drop_order_survives_a_reload_witness :
  ∃ tbl' st',
    handleDrop 0 Examples.three_tasks Examples.three_tasks_state = Some (tbl', st') ∧
    ∀ loaded, loaded ≡ₚ project_tasks 1 tbl' →
              StronglySorted (λ a b, t_order_index a ≤ t_order_index b) loaded →
              map t_id loaded = map t_id (tasks st').
Proof.
  apply (X26_drop_order_survives_a_reload 1%nat 0 22 Examples.three_tasks
           Examples.three_tasks_state).
  - apply (bool_decide_unpack _). vm_compute. exact I.
  - reflexivity.
  - done.
  - reflexivity.
  - vm_compute. discriminate.
Defined.

End TasksReload.

(** * Global filters across the components *)

Section FiltersAcross.
Import JS Spec RequirementsChat DocumentPreview.

(** X27. The filters that the chat writes reach no preview and no export:
    after [saveFilters], whatever the names and whichever project's chat it
    is, the global filters that DocumentPreview and the export read are
    none, for every project, the filters added in a preview before
    included. *)
Theorem X27_chat_filters_reach_no_preview projectId projectId' names
    (filters : list FilterRow) :
  loadFilters projectId' (saveFilters projectId names filters) = [].
Proof.
  unfold loadFilters. apply filter_none, Forall_forall. intros r Hr [Hp Ht].
  assert (r ∈ filter (λ r, f_tab_id r = None) (saveFilters projectId names filters)) as Hin.
  { by apply list_elem_of_filter. }
  rewrite saveFilters_global in Hin.
  apply list_elem_of_fmap in Hin as (name & -> & _). discriminate Hp.
Qed.

(** X28. A filter added in the preview of one project shows last in that
    preview and in no other one, and is read by the chat of every project:
    the data loaded for any project then holds [filters], so no chat opened
    afterwards asks for the filters. *)
Theorem X28_added_filter_is_read_by_every_chat projectId projectId' projects funcs tabs
    (filters : list FilterRow) adds :
  let new := {| f_project_id := Some projectId; f_tab_id := None; f_name := "New Filter";
                f_data_source := ""; f_multi_select := false |} in
  let st := initializeChat projectId' projects funcs tabs (addFilter projectId filters)
              adds in
  loadFilters projectId (addFilter projectId filters)
    = loadFilters projectId filters ++ [new] ∧
  (projectId' ≠ projectId →
   loadFilters projectId' (addFilter projectId filters) = loadFilters projectId' filters) ∧
  data st !! "filters"
    = Some (VList (map f_name (filter (λ r, f_tab_id r = None) filters) ++ ["New Filter"])) ∧
  step st ≠ SFilters.
Proof.
  intros new st.
  assert (data st !! "filters"
          = Some (VList (map f_name (filter (λ r, f_tab_id r = None) filters)
                         ++ ["New Filter"]))) as Hdata.
  { subst st. unfold initializeChat. cbn [data]. rewrite loaded_filters.
    unfold addFilter. rewrite filter_app, (filter_cons_True _ _ []) by done.
    rewrite filter_nil, bool_decide_eq_true_2, map_app; [done|].
    by destruct (filter _ filters). }
  split_and!; [| |done|].
  - unfold loadFilters, addFilter. rewrite filter_app.
    by rewrite (filter_cons_True _ _ []).
  - intros Hne. unfold loadFilters, addFilter. rewrite filter_app.
    rewrite (filter_cons_False _ _ []); [by rewrite app_nil_r|].
    simpl. intros [[= ->] _]. done.
  - subst st. unfold initializeChat in *. cbn [step data] in *.
    unfold determineNextStep. rewrite Hdata.
    repeat (destruct (negb (truthy _)); [done|]).
    cbn [truthy negb]. by repeat destruct (is_undefined _).
Qed.

End FiltersAcross.

(** * The age shown in the project list *)

Section LastEditedProps.
Import ProjectList.

(** X29. The age shown for a project is worded by the largest unit that
    fits, with a number that is within that unit: minutes from 1 to 59,
    hours from 1 to 23, days from 1 to 6, each the whole part of the time
    passed; less than a minute, a date in the future included, is just now,
    and seven days or more give the date. *)
Theorem X29_last_edited_is_within_its_unit (date now : Z) :
  let diffMs := now - date in
  match formatLastEdited date now with
  | JustNow => diffMs < 60000
  | MinutesAgo n => 1 ≤ n ≤ 59 ∧ n * 60000 ≤ diffMs < (n + 1) * 60000
  | HoursAgo n => 1 ≤ n ≤ 23 ∧ n * 3600000 ≤ diffMs < (n + 1) * 3600000
  | DaysAgo n => 1 ≤ n ≤ 6 ∧ n * 86400000 ≤ diffMs < (n + 1) * 86400000
  | LocaleDate => 7 * 86400000 ≤ diffMs
  end.
Proof.
  intros diffMs. unfold formatLastEdited. fold diffMs. cbv zeta.
  pose proof (Z.div_mod diffMs 60000 ltac:(lia)) as Hm.
  pose proof (Z.mod_pos_bound diffMs 60000 ltac:(lia)) as Hm'.
  pose proof (Z.div_mod diffMs 3600000 ltac:(lia)) as Hh.
  pose proof (Z.mod_pos_bound diffMs 3600000 ltac:(lia)) as Hh'.
  pose proof (Z.div_mod diffMs 86400000 ltac:(lia)) as Hd.
  pose proof (Z.mod_pos_bound diffMs 86400000 ltac:(lia)) as Hd'.
  destruct (Z.ltb_spec (diffMs / 60000) 1); [lia|].
  destruct (Z.ltb_spec (diffMs / 60000) 60); [lia|].
  destruct (Z.ltb_spec (diffMs / 3600000) 24); [lia|].
  destruct (Z.ltb_spec (diffMs / 86400000) 7); lia.
Qed.

End LastEditedProps.
